(** * The turn-routing coordinator of the conversational agent accelerator

    A shallow embedding of [src/backend/src/semantic_kernel_orchestrator.py]:
    the group chat manager ([filter_results], [select_next_agent],
    [should_terminate]) and the retrying turn coordinator
    ([process_message]).

    Python exceptions are values of an error monad, the participant
    dictionary is a finite map, decoded JSON is an inductive type, and the
    collaborators the coordinator awaits (the orchestration, its result
    future, the runtime) are an explicit environment whose calls are
    recorded in an event trace. *)

From Stdlib Require Import ZArith Ascii.
From stdpp Require Import base option list gmap strings fin_maps.

Set Warnings "-register-all".
Local Open Scope Z_scope.

(** ** Python values and exceptions *)

(** What [json.loads] produces. A Python [dict] keeps its members in
    insertion order; [None] and JSON [null] are the same value. *)
Inductive json : Type :=
  | JNull
  | JBool (b : bool)
  | JInt (z : Z)
  | JFloat (lexeme : string)
  | JString (s : string)
  | JArray (items : list json)
  | JObject (members : list (string * json)).

(** The exception classes the module can meet. All of them derive from
    [Exception]; [ExternalError] stands for whatever a collaborator raises. *)
Inductive exn : Type :=
  | JSONDecodeError
  | AttributeError
  | KeyError
  | IndexError
  | TypeError
  | TimeoutError
  | ExternalError (detail : string).

Inductive result (A : Type) : Type :=
  | Return (a : A)
  | Raise (e : exn).
Arguments Return {A} a.
Arguments Raise {A} e.

Global Instance result_ret : MRet result := λ A a, Return a.
Global Instance result_bind : MBind result := λ A B f m,
  match m with
  | Return a => f a
  | Raise e => Raise e
  end.

(** [try: body except <class>: handler]. *)
Definition try_except {A} (body : result A) (catches : exn → bool)
    (handler : exn → result A) : result A :=
  match body with
  | Return a => Return a
  | Raise e => if catches e then handler e else Raise e
  end.

(** [except Exception] *)
Definition is_Exception (e : exn) : bool := true.

(** [except json.JSONDecodeError] *)
Definition is_JSONDecodeError (e : exn) : bool :=
  match e with
  | JSONDecodeError => true
  | _ => false
  end.

(** ** Operations on decoded values *)

Fixpoint dict_lookup (key : string) (members : list (string * json)) : option json :=
  match members with
  | [] => None
  | (k, v) :: rest => if String.eqb k key then Some v else dict_lookup key rest
  end.

(** [v.get(key)]: only a [dict] has the method; a missing key gives [None]. *)
Definition py_get (v : json) (key : string) : result json :=
  match v with
  | JObject members => Return (default JNull (dict_lookup key members))
  | _ => Raise AttributeError
  end.

(** [v[key]] for a string key. *)
Definition py_getitem (v : json) (key : string) : result json :=
  match v with
  | JObject members =>
      match dict_lookup key members with
      | Some x => Return x
      | None => Raise KeyError
      end
  | _ => Raise TypeError
  end.

(** [v[i]] for a non-negative integer index. The keys of a decoded [dict]
    are strings, so an integer is never one of them. *)
Definition py_getitem_int (v : json) (i : nat) : result json :=
  match v with
  | JObject _ => Raise KeyError
  | JArray items =>
      match items !! i with
      | Some x => Return x
      | None => Raise IndexError
      end
  | JString s =>
      match String.get i s with
      | Some c => Return (JString (String c EmptyString))
      | None => Raise IndexError
      end
  | _ => Raise TypeError
  end.

(** [v == s] for a string literal [s]. *)
Definition py_eq_str (v : json) (s : string) : bool :=
  match v with
  | JString t => String.eqb t s
  | _ => false
  end.

(** ** Chat messages *)

Inductive AuthorRole : Type := SYSTEM | USER | ASSISTANT | TOOL | DEVELOPER.

Definition AuthorRole_eqb (a b : AuthorRole) : bool :=
  match a, b with
  | SYSTEM, SYSTEM | USER, USER | ASSISTANT, ASSISTANT
  | TOOL, TOOL | DEVELOPER, DEVELOPER => true
  | _, _ => false
  end.

Record ChatMessageContent : Type := {
  role : AuthorRole;
  name : option string;
  content : string
}.

Abbreviation ChatHistory := (list ChatMessageContent) (only parsing).

Record MessageResult : Type := {
  result_message : ChatMessageContent;
  result_reason : string
}.

(** Truth value of an [Optional[str]]: [None] and the empty string are falsy. *)
Definition str_truthy (s : option string) : bool :=
  match s with
  | Some EmptyString => false
  | Some _ => true
  | None => false
  end.

(** [name == literal] for an [Optional[str]]. *)
Definition name_is (n : option string) (literal : string) : bool :=
  match n with
  | Some s => String.eqb s literal
  | None => false
  end.

(** ** The participant dictionary *)

(** [key in participant_descriptions] *)
Definition dict_contains (participant_descriptions : gmap string string)
    (key : string) : bool :=
  bool_decide (is_Some (participant_descriptions !! key)).

(** [next((agent for agent in participant_descriptions.keys() if p(agent)), None)] *)
Definition next_agent (p : string → bool)
    (participant_descriptions : gmap string string) : option string :=
  snd <$> list_find (λ agent, p agent = true) (map_to_list participant_descriptions).*1.

(** ** CustomGroupChatManager *)

Definition filter_results (chat_history : ChatHistory) : MessageResult :=
  match last chat_history with
  | None =>
      {| result_message :=
           {| role := ASSISTANT; name := None;
              content := "No messages in chat history." |};
         result_reason := "Chat history is empty." |}
  | Some last_message =>
      {| result_message :=
           {| role := ASSISTANT; name := None;
              content := content last_message |};
         result_reason := "Returning the last agent's response." |}
  end.

Definition should_request_user_input (chat_history : ChatHistory) : bool := false.

Section Manager.

(** [json.loads] on a [str]: the decoded value, or [None] for a
    [JSONDecodeError]. *)
Variable json_loads : string → option json.

Definition py_json_loads (s : string) : result json :=
  match json_loads s with
  | Some v => Return v
  | None => Raise JSONDecodeError
  end.

(** [response.content] where [response] may be [None]. *)
Definition attr_content (response : option ChatMessageContent) : result string :=
  match response with
  | Some m => Return (content m)
  | None => Raise AttributeError
  end.

(** Pretty-prints the message; what is printed is not modelled, what can
    raise is. *)
Definition format_agent_response (response : option ChatMessageContent) : result string :=
  _ ← try_except
        (c ← attr_content response; _ ← py_json_loads c; Return ())
        is_JSONDecodeError
        (λ _, _ ← attr_content response; Return ());
  attr_content response.

(** The intent the triage agent detected:
    [parsed["response"]["result"]["conversations"][0]["intents"][0]["name"]]. *)
Definition detected_intent (parsed : json) : result json :=
  a ← py_getitem parsed "response";
  b ← py_getitem a "result";
  c ← py_getitem b "conversations";
  d ← py_getitem_int c 0;
  e ← py_getitem d "intents";
  f ← py_getitem_int e 0;
  py_getitem f "name".

(** The body of the [try] for a TriageAgent message: [Some r] when it
    returns [r], [None] when control falls out of the [if] statements. *)
Definition triage_route (last_message : ChatMessageContent)
    (participant_descriptions : gmap string string) : result (option (option string)) :=
  parsed ← py_json_loads (content last_message);
  t ← py_get parsed "type";
  if py_eq_str t "cqa_result" then Return (Some None)
  else
    t' ← py_get parsed "type";
    if py_eq_str t' "clu_result" then
      intent ← detected_intent parsed;
      Return (Some (next_agent (λ agent, String.eqb agent "HeadSupportAgent")
                               participant_descriptions))
    else Return None.

Definition head_support_route (last_message : ChatMessageContent)
    (participant_descriptions : gmap string string) : result (option string) :=
  parsed ← py_json_loads (content last_message);
  route ← py_get parsed "target_agent";
  Return (next_agent (λ agent, py_eq_str route agent) participant_descriptions).

(** [not last_message or last_message.role == AuthorRole.USER] *)
Definition from_user (last_message : option ChatMessageContent) : bool :=
  match last_message with
  | None => true
  | Some m => AuthorRole_eqb (role m) USER
  end.

(** The [result] field of the [StringResult] that [select_next_agent]
    returns, or the exception that leaves it. An empty history never gets
    past [format_agent_response]. *)
Definition select_next_agent (chat_history : ChatHistory)
    (participant_descriptions : gmap string string) : result (option string) :=
  let last_message := last chat_history in
  _ ← format_agent_response last_message;
  if from_user last_message then
    if Nat.eqb (length chat_history) 1 then
      try_except
        (Return (next_agent (λ agent, String.eqb agent "TriageAgent")
                            participant_descriptions))
        is_Exception (λ _, Return None)
    else
      let last_agent :=
        if Nat.ltb 1 (length chat_history)
        then chat_history !! (length chat_history - 2)%nat ≫= name
        else None in
      if str_truthy last_agent
         && dict_contains participant_descriptions (default EmptyString last_agent)
      then Return last_agent
      else Return None
  else
    match last_message with
    | None => Return None
    | Some last_message =>
      if name_is (name last_message) "TriageAgent" then
        r ← try_except (triage_route last_message participant_descriptions)
              is_Exception (λ _, Return (Some None));
        match r with
        | Some chosen => Return chosen
        | None => Return None
        end
      else if name_is (name last_message) "HeadSupportAgent" then
        try_except (head_support_route last_message participant_descriptions)
          is_Exception (λ _, Return None)
      else Return None
    end.

(** The [result] field of the [BooleanResult] that [should_terminate]
    returns. The [try] body gives [Some b] when it returns [b] and [None]
    when neither flag is set and control reaches the default case. *)
Definition should_terminate (chat_history : ChatHistory) : result bool :=
  match last chat_history with
  | None => Return false
  | Some last_message =>
      r ← try_except
            (parsed_content ← py_json_loads (content last_message);
             t ← py_get parsed_content "terminated";
             let terminated := py_eq_str t "True" in
             n ← py_get parsed_content "need_more_info";
             let need_more_info := py_eq_str n "True" in
             if terminated || need_more_info then Return (Some true)
             else Return None)
            is_JSONDecodeError
            (λ _, Return (Some false));
      match r with
      | Some b => Return b
      | None => Return false
      end
  end.

End Manager.

(** ** A reference decoder

    [json_decode] follows the grammar that [json.loads] accepts: leading and
    trailing blanks, the three literals, numbers (an integer stays an
    integer, a fraction or an exponent makes a float, kept as its lexeme),
    [NaN] and the infinities, strings with their escapes and without raw
    control characters, arrays and objects; a repeated key keeps its first
    position and its last value. Text is a string of bytes, so a code point
    above U+007F written as an escape is stored in its UTF-8 form. The
    results about the manager hold for every decoder; this one runs them on
    concrete replies. *)
Module Decoder.

Definition quote : ascii := "034".
Definition backslash : ascii := "092".

Definition is_ws (c : ascii) : bool :=
  Ascii.eqb c " " || Ascii.eqb c "009" || Ascii.eqb c "010" || Ascii.eqb c "013".

Definition is_digit (c : ascii) : bool :=
  (48 <=? nat_of_ascii c)%nat && (nat_of_ascii c <=? 57)%nat.

Definition digit_val (c : ascii) : Z := Z.of_nat (nat_of_ascii c) - 48.

Definition hex_val (c : ascii) : option Z :=
  let n := Z.of_nat (nat_of_ascii c) in
  if (48 <=? n) && (n <=? 57) then Some (n - 48)
  else if (65 <=? n) && (n <=? 70) then Some (n - 55)
  else if (97 <=? n) && (n <=? 102) then Some (n - 87)
  else None.

Fixpoint skip_ws (s : string) : string :=
  match s with
  | String c rest => if is_ws c then skip_ws rest else s
  | EmptyString => s
  end.

Fixpoint strip_prefix (p s : string) : option string :=
  match p, s with
  | EmptyString, _ => Some s
  | String a p', String b s' => if Ascii.eqb a b then strip_prefix p' s' else None
  | String _ _, EmptyString => None
  end.

(** The longest run of digits at the head of [s], and what follows it. *)
Fixpoint take_digits (s : string) : string * string :=
  match s with
  | String c rest =>
      if is_digit c then
        let '(ds, tl) := take_digits rest in (String c ds, tl)
      else (EmptyString, s)
  | EmptyString => (EmptyString, EmptyString)
  end.

Fixpoint digits_value (acc : Z) (ds : string) : Z :=
  match ds with
  | String c rest => digits_value (10 * acc + digit_val c) rest
  | EmptyString => acc
  end.

Definition byte (n : Z) : ascii := ascii_of_nat (Z.to_nat n).

Definition utf8 (cp : Z) : string :=
  if cp <? 128 then String (byte cp) EmptyString
  else if cp <? 2048 then
    String (byte (192 + cp / 64)) (String (byte (128 + cp mod 64)) EmptyString)
  else if cp <? 65536 then
    String (byte (224 + cp / 4096))
      (String (byte (128 + (cp / 64) mod 64))
         (String (byte (128 + cp mod 64)) EmptyString))
  else
    String (byte (240 + cp / 262144))
      (String (byte (128 + (cp / 4096) mod 64))
         (String (byte (128 + (cp / 64) mod 64))
            (String (byte (128 + cp mod 64)) EmptyString))).

Definition hex4 (s : string) : option (Z * string) :=
  match s with
  | String a (String b (String c (String d rest))) =>
      match hex_val a, hex_val b, hex_val c, hex_val d with
      | Some x, Some y, Some z, Some w => Some (4096 * x + 256 * y + 16 * z + w, rest)
      | _, _, _, _ => None
      end
  | _ => None
  end.

(** [\uXXXX] after the [\u]; a high surrogate followed by an escaped low
    surrogate is one code point. *)
Definition scan_unicode (s : string) : option (string * string) :=
  match hex4 s with
  | None => None
  | Some (hi, rest) =>
      let single := Some (utf8 hi, rest) in
      if (55296 <=? hi) && (hi <=? 56319) then
        match rest with
        | String b (String u rest') =>
            if Ascii.eqb b backslash && Ascii.eqb u "u" then
              match hex4 rest' with
              | Some (lo, rest'') =>
                  if (56320 <=? lo) && (lo <=? 57343)
                  then Some (utf8 (65536 + (hi - 55296) * 1024 + (lo - 56320)), rest'')
                  else single
              | None => single
              end
            else single
        | _ => single
        end
      else single
  end.

(** The text of a string after its opening quote, and what follows the
    closing one. The fuel bounds the characters read. *)
Fixpoint scan_string (fuel : nat) (s : string) : option (string * string) :=
  match fuel with
  | O => None
  | S fuel' =>
    match s with
    | EmptyString => None
    | String c rest =>
      if Ascii.eqb c quote then Some (EmptyString, rest)
      else if Ascii.eqb c backslash then
        match rest with
        | EmptyString => None
        | String e rest' =>
            let simple (x : ascii) :=
              '(txt, tl) ← scan_string fuel' rest'; Some (String x txt, tl) in
            if Ascii.eqb e quote then simple quote
            else if Ascii.eqb e backslash then simple backslash
            else if Ascii.eqb e "/" then simple "/"%char
            else if Ascii.eqb e "b" then simple "008"%char
            else if Ascii.eqb e "f" then simple "012"%char
            else if Ascii.eqb e "n" then simple "010"%char
            else if Ascii.eqb e "r" then simple "013"%char
            else if Ascii.eqb e "t" then simple "009"%char
            else if Ascii.eqb e "u" then
              '(bytes, tl) ← scan_unicode rest';
              '(txt, tl') ← scan_string fuel' tl;
              Some (String.append bytes txt, tl')
            else None
        end
      else if (nat_of_ascii c <? 32)%nat then None
      else '(txt, tl) ← scan_string fuel' rest; Some (String c txt, tl)
    end
  end.

Definition scan_number (s : string) : option (json * string) :=
  let '(sign, body) :=
    match s with
    | String "-" rest => (String "-" EmptyString, rest)
    | _ => (EmptyString, s)
    end in
  let integer : option (string * string) :=
    match body with
    | String "0" rest => Some (String "0" EmptyString, rest)
    | String c _ => if is_digit c then Some (take_digits body) else None
    | EmptyString => None
    end in
  '(int_digits, after_int) ← integer;
  let '(frac, after_frac) :=
    match after_int with
    | String "." rest =>
        match take_digits rest with
        | (EmptyString, _) => (EmptyString, after_int)
        | (ds, tl) => (String "." ds, tl)
        end
    | _ => (EmptyString, after_int)
    end in
  let '(expo, after_exp) :=
    match after_frac with
    | String e rest =>
        if Ascii.eqb e "e" || Ascii.eqb e "E" then
          let '(esign, rest') :=
            match rest with
            | String "+" r => (String "+" EmptyString, r)
            | String "-" r => (String "-" EmptyString, r)
            | _ => (EmptyString, rest)
            end in
          match take_digits rest' with
          | (EmptyString, _) => (EmptyString, after_frac)
          | (ds, tl) => (String e (String.append esign ds), tl)
          end
        else (EmptyString, after_frac)
    | EmptyString => (EmptyString, after_frac)
    end in
  match frac, expo with
  | EmptyString, EmptyString =>
      let v := digits_value 0 int_digits in
      Some (JInt (match sign with EmptyString => v | _ => - v end), after_exp)
  | _, _ =>
      Some (JFloat (String.append sign (String.append int_digits (String.append frac expo))),
            after_exp)
  end.

(** [d[key] = v] on the members of a [dict]. *)
Fixpoint dict_set (key : string) (v : json) (members : list (string * json))
    : list (string * json) :=
  match members with
  | [] => [(key, v)]
  | (k, x) :: rest =>
      if String.eqb k key then (k, v) :: rest else (k, x) :: dict_set key v rest
  end.

(** A value at the head of [s] and what follows it. An object and an array
    read their members with [scan_members] and [scan_items]; the fuel bounds
    the nesting and the number of members. *)
Fixpoint scan_value (fuel : nat) (s : string) : option (json * string) :=
  match fuel with
  | O => None
  | S fuel' =>
    match s with
    | EmptyString => None
    | String c rest =>
      if Ascii.eqb c quote then
        '(txt, tl) ← scan_string (String.length s) rest; Some (JString txt, tl)
      else if Ascii.eqb c "{" then
        match skip_ws rest with
        | String "}" tl => Some (JObject [], tl)
        | body => scan_members fuel' [] body
        end
      else if Ascii.eqb c "[" then
        match skip_ws rest with
        | String "]" tl => Some (JArray [], tl)
        | body => scan_items fuel' [] body
        end
      else
        match strip_prefix "null" s, strip_prefix "true" s, strip_prefix "false" s with
        | Some tl, _, _ => Some (JNull, tl)
        | _, Some tl, _ => Some (JBool true, tl)
        | _, _, Some tl => Some (JBool false, tl)
        | None, None, None =>
          match scan_number s with
          | Some r => Some r
          | None =>
            match strip_prefix "NaN" s, strip_prefix "Infinity" s,
                  strip_prefix "-Infinity" s with
            | Some tl, _, _ => Some (JFloat "NaN", tl)
            | _, Some tl, _ => Some (JFloat "Infinity", tl)
            | _, _, Some tl => Some (JFloat "-Infinity", tl)
            | None, None, None => None
            end
          end
        end
    end
  end
with scan_members (fuel : nat) (acc : list (string * json)) (s : string)
    : option (json * string) :=
  match fuel with
  | O => None
  | S fuel' =>
    match s with
    | String c rest =>
      if Ascii.eqb c quote then
        '(key, tl) ← scan_string (String.length s) rest;
        match skip_ws tl with
        | String ":" tl1 =>
            '(v, tl2) ← scan_value fuel' (skip_ws tl1);
            let acc' := dict_set key v acc in
            match skip_ws tl2 with
            | String "}" tl3 => Some (JObject acc', tl3)
            | String "," tl3 => scan_members fuel' acc' (skip_ws tl3)
            | _ => None
            end
        | _ => None
        end
      else None
    | EmptyString => None
    end
  end
with scan_items (fuel : nat) (acc : list json) (s : string) : option (json * string) :=
  match fuel with
  | O => None
  | S fuel' =>
      '(v, tl) ← scan_value fuel' s;
      let acc' := acc ++ [v] in
      match skip_ws tl with
      | String "]" tl1 => Some (JArray acc', tl1)
      | String "," tl1 => scan_items fuel' acc' (skip_ws tl1)
      | _ => None
      end
  end.

(** The whole text must be one value between blanks. *)
Definition json_decode (s : string) : option json :=
  '(v, tl) ← scan_value (2 * String.length s + 2) (skip_ws s);
  match skip_ws tl with
  | EmptyString => Some v
  | String _ _ => None
  end.

(** Replies are written with apostrophes where the JSON text has quotation
    marks; [dq] puts the quotation marks back. *)
Fixpoint dq (s : string) : string :=
  match s with
  | EmptyString => EmptyString
  | String c rest => String (if Ascii.eqb c "'" then quote else c) (dq rest)
  end.

End Decoder.

(** ** SemanticKernelOrchestrator.process_message *)

(** What [orchestration_result.get(timeout=35)] does when awaited: it
    delivers the final message, or raises (a timeout is [TimeoutError]). *)
Inductive get_outcome : Type :=
  | GetValue (value_content : string)
  | GetRaises (e : exn).

(** How the collaborators behave during the attempt that runs on one
    runtime: whether [orchestration.invoke] raises, what awaiting its result
    gives, and whether [runtime.stop_when_idle] raises. A fresh
    [InProcessRuntime] is built and started without failure. *)
Record attempt_env : Type := {
  invoke_raises : option exn;
  get_result : get_outcome;
  stop_raises : option exn
}.

(** Runtimes are numbered in the order [InProcessRuntime()] builds them. *)
Definition environment : Type := nat → attempt_env.

(** The calls the coordinator makes, in order. *)
Inductive event : Type :=
  | EvRuntimeCreated (runtime : nat)
  | EvRuntimeStarted (runtime : nat)
  | EvInvoke (task : string) (runtime : nat)
  | EvGet (runtime : nat) (timeout : Z)
  | EvStopWhenIdle (runtime : nat)
  | EvShutdownErrorLogged (runtime : nat) (e : exn)
  | EvSleep (seconds : Z).

(** [last_exception = {"type": "exception", "message": str(e)}]; the message
    is kept as the exception it was made from. *)
Record failure : Type := {
  failure_type : string;
  failure_cause : exn
}.

(** What [process_message] hands back: a decoded value (the answer text or
    the [response] member; Python's [None] is [JNull]), or the dictionary
    [{"error": f"An error occurred: {last_exception}"}]. *)
Inductive returned : Type :=
  | Value (v : json)
  | ErrorDict (last_exception : failure).

Section Orchestrator.

Variable json_loads : string → option json.
Variable max_retries : Z.
Variable env : environment.

(** Lines 297-312: the value has arrived; decode it and pick the reply. *)
Definition final_response (value_content : string) : result json :=
  final ← py_json_loads json_loads value_content;
  t ← py_get final "type";
  if py_eq_str t "cqa_result" then
    a ← py_getitem final "response";
    b ← py_getitem a "answers";
    c ← py_getitem_int b 0;
    py_getitem c "answer"
  else py_getitem final "response".

(** The inner [try] of one attempt. *)
Definition await_result (runtime : nat) : result json :=
  match get_result (env runtime) with
  | GetValue value_content => final_response value_content
  | GetRaises e => Raise e
  end.

(** The [finally] clause: stop the runtime, log and drop what it raises. *)
Definition shutdown (runtime : nat) : list event :=
  EvStopWhenIdle runtime ::
  match stop_raises (env runtime) with
  | Some e => [EvShutdownErrorLogged runtime e]
  | None => []
  end.

(** How one pass through the loop body ends. *)
Inductive attempt_end : Type :=
  | Returned (v : json)
  | Escaped (e : exn)
  | Failed (f : failure).

(** One pass through the body of the [while] loop, up to and including the
    [finally] clause. *)
Definition attempt (message_content : string) (runtime : nat) : attempt_end * list event :=
  let setup := [EvRuntimeCreated runtime; EvRuntimeStarted runtime;
                EvInvoke message_content runtime] in
  match invoke_raises (env runtime) with
  | Some e => (Escaped e, setup ++ shutdown runtime)
  | None =>
      match await_result runtime with
      | Return v => (Returned v, setup ++ EvGet runtime 35 :: shutdown runtime)
      | Raise e =>
          (Failed {| failure_type := "exception"; failure_cause := e |},
           setup ++ EvGet runtime 35 :: shutdown runtime)
      end
  end.

(** The [while retry_count < self.max_retries] loop and what follows it.
    [runtime] numbers the next runtime to be built. The fuel bounds the
    passes; [None] means it ran out. *)
Fixpoint process_loop (fuel : nat) (message_content : string) (retry_count : Z)
    (last_exception : option failure) (runtime : nat)
    : option (result returned) * list event :=
  if retry_count <? max_retries then
    match fuel with
    | O => (None, [])
    | S fuel' =>
        match attempt message_content runtime with
        | (Returned v, evs) => (Some (Return (Value v)), evs)
        | (Escaped e, evs) => (Some (Raise e), evs)
        | (Failed f, evs) =>
            let '(r, rest) :=
              process_loop fuel' message_content (retry_count + 1) (Some f) (S runtime) in
            (r, evs ++ EvSleep 1 :: rest)
        end
    end
  else
    match last_exception with
    | Some f => (Some (Return (ErrorDict f)), [])
    | None => (Some (Return (Value JNull)), [])
    end.

Definition process_message (message_content : string)
    : option (result returned) * list event :=
  process_loop (Z.to_nat max_retries) message_content 0 None 0%nat.

End Orchestrator.

(** The runtimes on which the orchestration was invoked, with the task each
    got, and the runtimes that were built. *)
Definition invocations (trace : list event) : list (string * nat) :=
  omap (λ ev, match ev with EvInvoke task r => Some (task, r) | _ => None end) trace.

Definition created (trace : list event) : list nat :=
  omap (λ ev, match ev with EvRuntimeCreated r => Some r | _ => None end) trace.

Definition started (trace : list event) : list nat :=
  omap (λ ev, match ev with EvRuntimeStarted r => Some r | _ => None end) trace.

Definition is_stop_of (runtime : nat) (ev : event) : bool :=
  match ev with
  | EvStopWhenIdle r => Nat.eqb r runtime
  | _ => false
  end.

(** How many times [stop_when_idle] was awaited on a runtime. *)
Definition stops_of (runtime : nat) (trace : list event) : nat :=
  length (filter (λ ev, is_stop_of runtime ev = true) trace).

(** The same collaborators with another behaviour of [stop_when_idle]. *)
Definition with_shutdown (env : environment) (stops : nat → option exn) : environment :=
  λ runtime,
    {| invoke_raises := invoke_raises (env runtime);
       get_result := get_result (env runtime);
       stop_raises := stops runtime |}.

(** The trace without the log lines of failed shutdowns. *)
Definition is_call (ev : event) : bool :=
  match ev with
  | EvShutdownErrorLogged _ _ => false
  | _ => true
  end.

Definition calls (trace : list event) : list event :=
  filter (λ ev, is_call ev = true) trace.

(** ** Reply shapes

    The flags travel as the strings ["True"] and ["False"] (the agents are
    told to answer ['terminated': 'True']); a reply carries a flag when it
    is an object whose member of that name is the string ["True"]. *)
Definition carries_flag (reply : json) (flag : string) : bool :=
  match reply with
  | JObject members =>
      match dict_lookup flag members with
      | Some (JString t) => String.eqb t "True"
      | _ => false
      end
  | _ => false
  end.

Definition is_dict (v : json) : bool :=
  match v with
  | JObject _ => true
  | _ => false
  end.

(** The reply is an object whose [type] member is the string [tag]. *)
Definition tagged (reply : json) (tag : string) : bool :=
  match reply with
  | JObject members =>
      match dict_lookup "type" members with
      | Some (JString t) => String.eqb t tag
      | _ => false
      end
  | _ => false
  end.

(** The reply holds an intent where the manager reads it. *)
Definition has_intent (reply : json) : bool :=
  match detected_intent reply with
  | Return _ => true
  | Raise _ => false
  end.

(** [X if X in participant_descriptions else None] *)
Definition if_known (participant_descriptions : gmap string string) (agent : string)
    : option string :=
  if dict_contains participant_descriptions agent then Some agent else None.

(** The runtime an event is about. *)
Definition runtime_of (ev : event) : option nat :=
  match ev with
  | EvRuntimeCreated r | EvRuntimeStarted r | EvInvoke _ r | EvGet r _
  | EvStopWhenIdle r | EvShutdownErrorLogged r _ => Some r
  | EvSleep _ => None
  end.

(** The events that close a pass on runtime [n]: awaiting the result,
    stopping the runtime, logging a failed stop. *)
Definition closing_event (n : nat) (ev : event) : Prop :=
  match ev with
  | EvGet r _ | EvStopWhenIdle r | EvShutdownErrorLogged r _ => r = n
  | _ => False
  end.

(** No event of the trace is about a runtime built before runtime [n]. *)
Definition from_runtime (n : nat) (trace : list event) : Prop :=
  Forall (λ ev, ∀ r, runtime_of ev = Some r → (n ≤ r)%nat) trace.

(** Wherever the trace holds an [invoke] on runtime [r], the two events
    before it build and start [r], and nothing earlier is about [r]. *)
Definition invokes_fresh (trace : list event) : Prop :=
  ∀ pre post task r, trace = pre ++ EvInvoke task r :: post →
    ∃ pre', pre = pre' ++ [EvRuntimeCreated r; EvRuntimeStarted r]
            ∧ Forall (λ ev, runtime_of ev ≠ Some r) pre'.

(** What holds of the trace of the loop from runtime [n] on, for the
    message [msg]. *)
Record trace_ok (msg : string) (n : nat) (trace : list event) : Prop := {
  ok_range : from_runtime n trace;
  ok_created : ∃ k, created trace = seq n k;
  ok_started : started trace = created trace;
  ok_invocations : invocations trace = (λ r, (msg, r)) <$> created trace;
  ok_stops : ∀ r, r ∈ created trace → stops_of r trace = 1%nat;
  ok_fresh : invokes_fresh trace
}.

(** ** Sample data *)

Definition five_agents : gmap string string :=
  {[ "TriageAgent" := "A triage agent that routes inquiries to the proper custom agent.";
     "HeadSupportAgent" := "A head support agent that routes inquiries to the proper custom agent.";
     "OrderStatusAgent" := "An agent that checks order status.";
     "OrderCancelAgent" := "An agent that checks on cancellations.";
     "OrderRefundAgent" := "An agent that checks on refunds." ]}.


Definition user_says (text : string) : ChatMessageContent :=
  {| role := USER; name := None; content := text |}.

Definition agent_says (agent text : string) : ChatMessageContent :=
  {| role := ASSISTANT; name := Some agent; content := Decoder.dq text |}.

Definition clu_reply : string :=
  "{'type': 'clu_result', 'response': {'kind': 'ConversationResult', 'result': {'conversations': [{'id': '1', 'intents': [{'name': 'OrderStatus', 'type': 'workflow_intent'}], 'entities': []}]}}, 'terminated': 'False'}".

(** Collaborators for the scenarios: [invoke] fails; every wait times out;
    the triage agent answers a question; two timeouts, then a handler
    replies. *)
Definition invoke_fails : environment := λ _,
  {| invoke_raises := Some (ExternalError "agent registration failed");
     get_result := GetRaises TimeoutError;
     stop_raises := None |}.

Definition always_times_out : environment := λ _,
  {| invoke_raises := None; get_result := GetRaises TimeoutError; stop_raises := None |}.

Definition faq_answer : environment := λ _,
  {| invoke_raises := None;
     get_result := GetValue (Decoder.dq
       "{'type': 'cqa_result', 'response': {'answers': [{'answer': '9am-5pm Mon-Fri'}]}, 'terminated': 'True'}");
     stop_raises := None |}.

Definition third_time_lucky : environment := λ runtime,
  {| invoke_raises := None;
     get_result :=
       if (runtime <? 2)%nat then GetRaises TimeoutError
       else GetValue (Decoder.dq
         "{'response': 'Order 1234 cancelled.', 'terminated': 'True', 'need_more_info': 'False'}");
     stop_raises := if (runtime =? 1)%nat then Some (ExternalError "runtime is busy") else None |}.

(** ** More observers of a trace *)

(** The seconds slept and the timeouts waited with, in order. *)
Definition sleeps (trace : list event) : list Z :=
  omap (λ ev, match ev with EvSleep seconds => Some seconds | _ => None end) trace.

Definition waits (trace : list event) : list Z :=
  omap (λ ev, match ev with EvGet _ timeout => Some timeout | _ => None end) trace.

(** The events of [k] passes that all failed, from runtime [n] on: each is
    followed by the one-second sleep. *)
Fixpoint failed_passes (json_loads : string → option json) (env : environment)
    (msg : string) (n k : nat) : list event :=
  match k with
  | O => []
  | S k' =>
      (attempt json_loads env msg n).2
      ++ EvSleep 1 :: failed_passes json_loads env msg (S n) k'
  end.

(** [last_exception] after [k] failed passes from runtime [n] on. *)
Definition last_failure (le : option failure) (cause : nat → exn) (n k : nat)
    : option failure :=
  match k with
  | O => le
  | S j => Some {| failure_type := "exception"; failure_cause := cause (n + j)%nat |}
  end.

(** ** The local client script

    [src/backend/src/sk_orchestration_scripts/groupchat_client.py]. Its
    [filter_results], [select_next_agent], [should_terminate] and
    [format_agent_response] are, prints apart, those of the orchestrator
    module; [should_request_user_input] and the loop of [main] are its
    own. *)
Module GroupChatClient.

Section Client.

Variable json_loads : string → option json.

(** The [result] field of the [BooleanResult]; the [try] body gives
    [Some true] when it returns and [None] when control leaves it. *)
Definition should_request_user_input (chat_history : ChatHistory) : result bool :=
  match last chat_history with
  | None => Return false
  | Some last_message =>
      r ← try_except
            (parsed_content ← py_json_loads json_loads (content last_message);
             n ← py_get parsed_content "need_more_info";
             let need_more_info := py_eq_str n "True" in
             if need_more_info then Return (Some true) else Return None)
            is_JSONDecodeError
            (λ _, Return (Some false));
      match r with
      | Some b => Return b
      | None => Return false
      end
  end.

End Client.


Definition task_string : string :=
  "current question: order id 123, history: user - I want to check on an order, system - Please provide more information about your order so I can better assist you.".

(** How the [for] loop of [main] ends: by [break] with the value, or
    through its [else] clause. *)
Inductive loop_end : Type :=
  | Succeeded (value_content : string)
  | GaveUp.

(** [for attempt in range(...)] with its body and its [else] clause;
    [runtime] numbers the next runtime to be built. The value is printed
    as it is, not decoded. *)
Fixpoint attempts (env : environment) (range : list Z) (runtime : nat)
    : result loop_end * list event :=
  match range with
  | [] => (Return GaveUp, [])
  | _ :: rest =>
      let setup := [EvRuntimeCreated runtime; EvRuntimeStarted runtime;
                    EvInvoke task_string runtime] in
      match invoke_raises (env runtime) with
      | Some e => (Raise e, setup ++ shutdown env runtime)
      | None =>
          match get_result (env runtime) with
          | GetValue value_content =>
              (Return (Succeeded value_content),
               setup ++ EvGet runtime 60 :: shutdown env runtime)
          | GetRaises _ =>
              let '(r, evs) := attempts env rest (S runtime) in
              (r, setup ++ EvGet runtime 60 :: shutdown env runtime ++ EvSleep 2 :: evs)
          end
      end
  end.

(** [range(1, 3)] *)
Definition main_loop (env : environment) : result loop_end * list event :=
  attempts env (seqZ 1 2) 0%nat.

End GroupChatClient.

(** One timeout, then [invoke] fails. *)
Definition second_invoke_fails : environment := λ runtime,
  {| invoke_raises :=
       if (runtime =? 1)%nat then Some (ExternalError "agent registration failed") else None;
     get_result := GetRaises TimeoutError;
     stop_raises := None |}.

(** The final message is a dispatch decision: it holds no [response]. *)
Definition dispatch_is_final : environment := λ _,
  {| invoke_raises := None;
     get_result := GetValue (Decoder.dq
       "{'target_agent': 'BillingAgent', 'intent': 'Billing', 'terminated': 'False'}");
     stop_raises := None |}.

(** The session ran on an empty history: its outcome is the placeholder
    of [filter_results]. *)
Definition empty_history_result : environment := λ _,
  {| invoke_raises := None;
     get_result := GetValue (content (result_message (filter_results [])));
     stop_raises := None |}.

(** * Properties *)

(** ** The decoder on sample replies *)

Example decode_flags :
  Decoder.json_decode (Decoder.dq "{'response': 'ok', 'terminated': 'True', 'n': [1, -2, 3.5e2, null, true]}")
  = Some (JObject [("response", JString "ok"); ("terminated", JString "True");
                   ("n", JArray [JInt 1; JInt (-2); JFloat "3.5e2"; JNull; JBool true])]).
Proof. vm_compute. reflexivity. Qed.

Example decode_rejects :
  Decoder.json_decode "not json" = None ∧ Decoder.json_decode "01" = None
  ∧ Decoder.json_decode (Decoder.dq "{'a': 1,}") = None
  ∧ Decoder.json_decode EmptyString = None.
Proof. vm_compute. auto. Qed.

Example decode_clu_reply :
  has_intent <$> Decoder.json_decode (Decoder.dq clu_reply) = Some true.
Proof. vm_compute. reflexivity. Qed.

(** ** Looking an agent up among the participants *)

Lemma dict_contains_keys (pd : gmap string string) (k : string) :
  dict_contains pd k = true ↔ k ∈ (map_to_list pd).*1.
Proof.
  unfold dict_contains. rewrite bool_decide_eq_true, list_elem_of_fmap. split.
  - intros [d Hd]. exists (k, d). split; [done|]. by apply elem_of_map_to_list.
  - intros [[k' d] [-> Hin]]. apply elem_of_map_to_list in Hin. by exists d.
Qed.

(** A generator that can only pick [x] picks it exactly when it is a key. *)
Lemma next_agent_unique (p : string → bool) (x : string) (pd : gmap string string) :
  (∀ a, p a = true ↔ a = x) → next_agent p pd = if_known pd x.
Proof.
  intros Hp. unfold next_agent, if_known.
  destruct (list_find _ _) as [[i a]|] eqn:Hfind; simpl.
  - apply list_find_Some in Hfind as (Hi & Ha & _).
    apply Hp in Ha as ->.
    assert (dict_contains pd x = true) as ->; [|done].
    apply dict_contains_keys. eapply list_elem_of_lookup_2; eauto.
  - destruct (dict_contains pd x) eqn:Hin; [|done].
    apply dict_contains_keys in Hin.
    apply list_find_None in Hfind.
    rewrite Forall_forall in Hfind. exfalso. apply (Hfind x Hin). by apply Hp.
Qed.

Lemma next_agent_nothing (p : string → bool) (pd : gmap string string) :
  (∀ a, p a = false) → next_agent p pd = None.
Proof.
  intros Hp. unfold next_agent.
  destruct (list_find _ _) as [[i a]|] eqn:Hfind; [|done].
  apply list_find_Some in Hfind as (_ & Ha & _). rewrite Hp in Ha. done.
Qed.

Lemma next_agent_literal (x : string) (pd : gmap string string) :
  next_agent (λ agent, String.eqb agent x) pd = if_known pd x.
Proof. apply next_agent_unique. intros a. apply String.eqb_eq. Qed.

Lemma next_agent_route (route : json) (pd : gmap string string) :
  next_agent (λ agent, py_eq_str route agent) pd
  = match route with
    | JString x => if_known pd x
    | _ => None
    end.
Proof.
  destruct route; try (apply next_agent_nothing; done).
  apply next_agent_unique. intros a. simpl. rewrite String.eqb_eq. split; congruence.
Qed.

(** ** filter_results *)

(** C10. For a history that ends in a message, the outcome [filter_results]
    delivers has exactly the content of that last message, as an assistant
    message; for the empty history it is the fixed text
    "No messages in chat history." and not an error. *)
Theorem filter_results_last_content (chat_history : ChatHistory) (m : ChatMessageContent) :
  result_message (filter_results (chat_history ++ [m]))
    = {| role := ASSISTANT; name := None; content := content m |}
  ∧ content (result_message (filter_results [])) = "No messages in chat history.".
Proof.
  split; [|reflexivity].
  unfold filter_results. rewrite last_snoc. reflexivity.
Qed.

(** ** should_terminate *)

Section TerminationFacts.

Variable json_loads : string → option json.

Lemma should_terminate_snoc (h : ChatHistory) (m : ChatMessageContent) :
  should_terminate json_loads (h ++ [m])
  = match json_loads (content m) with
    | None => Return false
    | Some v =>
        if is_dict v
        then Return (carries_flag v "terminated" || carries_flag v "need_more_info")
        else Raise AttributeError
    end.
Proof.
  unfold should_terminate. rewrite last_snoc. unfold py_json_loads.
  destruct (json_loads (content m)) as [v|]; [|reflexivity].
  destruct v; try reflexivity.
  simpl.
  destruct (dict_lookup "terminated" members) as [[| | | |s| |]|];
    destruct (dict_lookup "need_more_info" members) as [[| | | |s'| |]|];
    simpl; try reflexivity;
    repeat match goal with
    | |- context [String.eqb ?a "True"] => destruct (String.eqb a "True")
    end; reflexivity.
Qed.

End TerminationFacts.


(** A handler that asks for more information stops the chat; a dispatch
    decision and a reply that is not JSON do not. *)
Example should_terminate_on_replies :
  should_terminate Decoder.json_decode
    [agent_says "OrderStatusAgent"
       "{'response': 'Please provide more information.', 'terminated': 'False', 'need_more_info': 'True'}"]
    = Return true
  ∧ should_terminate Decoder.json_decode
      [agent_says "HeadSupportAgent" "{'target_agent': 'OrderStatusAgent', 'terminated': 'False'}"]
    = Return false
  ∧ should_terminate Decoder.json_decode
      [agent_says "OrderStatusAgent" "Your order is on its way."]
    = Return false.
Proof. vm_compute. auto. Qed.

(** A JSON boolean is not the string the manager compares with: a reply
    with a native [true] does not stop the chat. *)
Example native_true_is_not_a_flag :
  should_terminate Decoder.json_decode
    [agent_says "OrderStatusAgent" "{'response': 'done', 'terminated': true}"]
  = Return false.
Proof. vm_compute. reflexivity. Qed.

(** C3. Decoding is not total in [should_terminate]: content that decodes to
    something other than an object (an array, a number, a string, a
    literal) passes [json.loads], fails at [.get] with an [AttributeError]
    that the [except json.JSONDecodeError] clause does not catch, and the
    exception leaves the function. *)
Theorem should_terminate_raises_on_non_object (json_loads : string → option json)
    (h : ChatHistory) (m : ChatMessageContent) (v : json) :
  json_loads (content m) = Some v →
  is_dict v = false →
  should_terminate json_loads (h ++ [m]) = Raise AttributeError.
Proof.
  intros Hv Hd. rewrite should_terminate_snoc, Hv, Hd. reflexivity.
Qed.

Lemma should_terminate_raises_on_non_object_witness :
  should_terminate Decoder.json_decode ([] ++ [agent_says "OrderStatusAgent" "[]"])
  = Raise AttributeError.
Proof.
  apply (should_terminate_raises_on_non_object Decoder.json_decode []
           (agent_says "OrderStatusAgent" "[]") (JArray [])).
  - vm_compute. reflexivity.
  - reflexivity.
Defined.

(** The same on other replies an agent can give: a bare string, a number,
    [null]. *)
Example should_terminate_raises_on_scalars :
  should_terminate Decoder.json_decode [agent_says "OrderStatusAgent" "'Order 1234 is on its way.'"]
    = Raise AttributeError
  ∧ should_terminate Decoder.json_decode [agent_says "OrderStatusAgent" "1234"]
    = Raise AttributeError
  ∧ should_terminate Decoder.json_decode [agent_says "OrderStatusAgent" "null"]
    = Raise AttributeError.
Proof. vm_compute. auto. Qed.

(** ** select_next_agent *)

Section RoutingFacts.

Variable json_loads : string → option json.

Lemma format_agent_response_some (m : ChatMessageContent) :
  format_agent_response json_loads (Some m) = Return (content m).
Proof.
  unfold format_agent_response, py_json_loads. simpl.
  destruct (json_loads (content m)); reflexivity.
Qed.

Lemma tagged_get (members : list (string * json)) (tag : string) :
  py_eq_str (default JNull (dict_lookup "type" members)) tag
  = tagged (JObject members) tag.
Proof. simpl. destruct (dict_lookup "type" members) as [[]|]; reflexivity. Qed.

Lemma cqa_is_not_clu (v : json) :
  tagged v "cqa_result" = true → tagged v "clu_result" = false.
Proof.
  destruct v; try done. simpl.
  destruct (dict_lookup "type" members) as [[]|]; try done.
  intros ->%String.eqb_eq. reflexivity.
Qed.

(** What the TriageAgent branch returns, default case included. *)
Lemma triage_branch (m : ChatMessageContent) (pd : gmap string string) :
  (r ← try_except (triage_route json_loads m pd) is_Exception (λ _, Return (Some None));
   match r with
   | Some chosen => Return chosen
   | None => Return None
   end)
  = Return (match json_loads (content m) with
            | Some v =>
                if tagged v "clu_result" && has_intent v
                then if_known pd "HeadSupportAgent" else None
            | None => None
            end).
Proof.
  unfold triage_route, py_json_loads.
  destruct (json_loads (content m)) as [v|]; [|reflexivity].
  destruct v; try reflexivity.
  cbn [py_get mbind result_bind].
  rewrite !tagged_get.
  destruct (tagged (JObject members) "cqa_result") eqn:Hcqa.
  - rewrite (cqa_is_not_clu _ Hcqa). reflexivity.
  - destruct (tagged (JObject members) "clu_result"); [|reflexivity].
    unfold has_intent. rewrite next_agent_literal.
    destruct (detected_intent (JObject members)); reflexivity.
Qed.

(** What the HeadSupportAgent branch returns. *)
Lemma head_support_branch (m : ChatMessageContent) (pd : gmap string string) :
  try_except (head_support_route json_loads m pd) is_Exception (λ _, Return None)
  = Return (match json_loads (content m) with
            | Some (JObject members) =>
                match dict_lookup "target_agent" members with
                | Some (JString x) => if_known pd x
                | _ => None
                end
            | _ => None
            end).
Proof.
  unfold head_support_route, py_json_loads.
  destruct (json_loads (content m)) as [v|]; [|reflexivity].
  destruct v; try reflexivity.
  cbn [py_get mbind result_bind try_except]. rewrite next_agent_route.
  destruct (dict_lookup "target_agent" members) as [[]|]; reflexivity.
Qed.

(** The routing decision on a history that ends in [m]. *)
Lemma select_next_agent_snoc (h : ChatHistory) (m : ChatMessageContent)
    (pd : gmap string string) :
  select_next_agent json_loads (h ++ [m]) pd
  = Return
      (if AuthorRole_eqb (role m) USER then
         match last h with
         | None => if_known pd "TriageAgent"
         | Some previous =>
             if str_truthy (name previous)
                && dict_contains pd (default EmptyString (name previous))
             then name previous else None
         end
       else if name_is (name m) "TriageAgent" then
         match json_loads (content m) with
         | Some v =>
             if tagged v "clu_result" && has_intent v
             then if_known pd "HeadSupportAgent" else None
         | None => None
         end
       else if name_is (name m) "HeadSupportAgent" then
         match json_loads (content m) with
         | Some (JObject members) =>
             match dict_lookup "target_agent" members with
             | Some (JString x) => if_known pd x
             | _ => None
             end
         | _ => None
         end
       else None).
Proof.
  unfold select_next_agent.
  rewrite last_snoc, format_agent_response_some.
  cbn [mbind result_bind from_user].
  destruct (AuthorRole_eqb (role m) USER).
  - rewrite length_app. cbn [length].
    destruct h as [|a h] using rev_ind.
    + cbn. rewrite next_agent_literal. reflexivity.
    + clear IHh. rewrite last_snoc, length_app. cbn [length].
      replace (length h + 1 + 1 =? 1)%nat with false
        by (symmetry; apply Nat.eqb_neq; lia).
      replace (1 <? length h + 1 + 1)%nat with true
        by (symmetry; apply Nat.ltb_lt; lia).
      replace (length h + 1 + 1 - 2)%nat with (length h) by lia.
      rewrite <- (assoc_L (++)).
      change ([a] ++ [m]) with [a; m].
      rewrite (list_lookup_middle h [m] a (length h) eq_refl).
      cbn [mbind option_bind].
      destruct (str_truthy (name a) && _); reflexivity.
  - destruct (name_is (name m) "TriageAgent").
    + apply triage_branch.
    + destruct (name_is (name m) "HeadSupportAgent"); [|reflexivity].
      apply head_support_branch.
Qed.

(** On a history that ends in a message, routing returns: no content makes
    it raise. *)
Lemma select_next_agent_returns (h : ChatHistory) (m : ChatMessageContent)
    (pd : gmap string string) :
  ∃ chosen, select_next_agent json_loads (h ++ [m]) pd = Return chosen.
Proof. rewrite select_next_agent_snoc. eauto. Qed.

(** On the empty history it does not: [format_agent_response] reads the
    content of [None]. *)
Lemma select_next_agent_empty (pd : gmap string string) :
  select_next_agent json_loads [] pd = Raise AttributeError.
Proof. reflexivity. Qed.

End RoutingFacts.












(** ** process_message *)

Section CoordinatorFacts.

Variable json_loads : string → option json.
Variable max_retries : Z.

Lemma attempt_with_shutdown (env : environment) (stops : nat → option exn)
    (msg : string) (n : nat) :
  (attempt json_loads (with_shutdown env stops) msg n).1 = (attempt json_loads env msg n).1
  ∧ calls (attempt json_loads (with_shutdown env stops) msg n).2
    = calls (attempt json_loads env msg n).2.
Proof.
  unfold attempt, await_result, shutdown. cbn [with_shutdown invoke_raises get_result stop_raises].
  destruct (invoke_raises (env n)).
  - split; [reflexivity|]. destruct (stops n), (stop_raises (env n)); reflexivity.
  - destruct (match get_result (env n) with
              | GetValue c => final_response json_loads c
              | GetRaises e => Raise e
              end);
      (split; [reflexivity|]); destruct (stops n), (stop_raises (env n)); reflexivity.
Qed.

(** The events of one pass: the runtime is built, started and handed to
    [invoke] with the message; what follows concerns the same runtime,
    holds no further [invoke], and stops the runtime once. *)
Lemma attempt_events (env : environment) (msg : string) (n : nat) :
  ∃ tail,
    (attempt json_loads env msg n).2
      = [EvRuntimeCreated n; EvRuntimeStarted n; EvInvoke msg n] ++ tail
    ∧ Forall (closing_event n) tail
    ∧ stops_of n tail = 1%nat.
Proof.
  unfold attempt, shutdown, stops_of.
  destruct (invoke_raises (env n)); [|destruct (await_result _ _ _)];
    destruct (stop_raises (env n)); eexists; (split; [reflexivity|]);
    cbn; rewrite ?Nat.eqb_refl; cbn;
    (split; [repeat constructor|reflexivity]).
Qed.

Lemma stops_of_app (r : nat) (l k : list event) :
  stops_of r (l ++ k) = (stops_of r l + stops_of r k)%nat.
Proof. unfold stops_of. by rewrite filter_app, length_app. Qed.

Lemma stops_of_other (r : nat) (l : list event) :
  Forall (λ ev, runtime_of ev ≠ Some r) l → stops_of r l = 0%nat.
Proof.
  unfold stops_of. induction 1 as [|ev l Hev _ IH]; [reflexivity|].
  rewrite filter_cons. destruct (decide _) as [Hstop|]; [|exact IH].
  destruct ev; try discriminate. simpl in *.
  apply Nat.eqb_eq in Hstop. congruence.
Qed.

(** Unfolding the loop by one pass. *)
Lemma process_loop_pass (env : environment) (fuel : nat) (msg : string) (rc : Z)
    (le : option failure) (n : nat) :
  rc < max_retries →
  process_loop json_loads max_retries env (S fuel) msg rc le n
  = match attempt json_loads env msg n with
    | (Returned v, evs) => (Some (Return (Value v)), evs)
    | (Escaped e, evs) => (Some (Raise e), evs)
    | (Failed f, evs) =>
        let '(r, rest) :=
          process_loop json_loads max_retries env fuel msg (rc + 1) (Some f) (S n) in
        (r, evs ++ EvSleep 1 :: rest)
    end.
Proof. intros H. cbn [process_loop]. apply Z.ltb_lt in H. by rewrite H. Qed.

Lemma process_loop_done (env : environment) (fuel : nat) (msg : string) (rc : Z)
    (le : option failure) (n : nat) :
  max_retries ≤ rc →
  process_loop json_loads max_retries env fuel msg rc le n
  = (Some (Return (match le with Some f => ErrorDict f | None => Value JNull end)), []).
Proof.
  intros H. apply Z.ltb_ge in H.
  destruct fuel; cbn [process_loop]; rewrite H; destruct le; reflexivity.
Qed.

(** An induction principle that follows the passes of the loop: a property
    of the outcome and the trace holds when it holds where the loop ends
    and is kept by a failed pass. *)
Lemma process_loop_ind (env : environment) (msg : string)
    (P : Z → option failure → nat → option (result returned) * list event → Prop) :
  (∀ rc le n, max_retries ≤ rc →
     P rc le n (Some (Return (match le with Some f => ErrorDict f | None => Value JNull end)), [])) →
  (∀ rc le n v evs, rc < max_retries →
     attempt json_loads env msg n = (Returned v, evs) →
     P rc le n (Some (Return (Value v)), evs)) →
  (∀ rc le n e evs, rc < max_retries →
     attempt json_loads env msg n = (Escaped e, evs) →
     P rc le n (Some (Raise e), evs)) →
  (∀ rc le n f evs r rest, rc < max_retries →
     attempt json_loads env msg n = (Failed f, evs) →
     P (rc + 1) (Some f) (S n) (r, rest) →
     P rc le n (r, evs ++ EvSleep 1 :: rest)) →
  ∀ fuel rc le n, (Z.to_nat (max_retries - rc) ≤ fuel)%nat →
    P rc le n (process_loop json_loads max_retries env fuel msg rc le n).
Proof.
  intros Hdone Hret Hesc Hfail.
  induction fuel as [|fuel IH]; intros rc le n Hfuel.
  - rewrite process_loop_done by lia. apply Hdone. lia.
  - destruct (Z.lt_ge_cases rc max_retries) as [Hlt|Hge].
    + rewrite process_loop_pass by done.
      destruct (attempt json_loads env msg n) as [[v|e|f] evs] eqn:Hatt.
      * by apply Hret.
      * by apply Hesc.
      * specialize (IH (rc + 1) (Some f) (S n)).
        destruct (process_loop _ _ _ fuel msg (rc + 1) (Some f) (S n)) as [r rest].
        apply (Hfail _ _ _ _ _ _ _ Hlt Hatt). apply IH. lia.
    + rewrite process_loop_done by done. by apply Hdone.
Qed.

(** The same principle for [process_message]. *)
Lemma process_message_ind (env : environment) (msg : string)
    (P : Z → option failure → nat → option (result returned) * list event → Prop) :
  (∀ rc le n, max_retries ≤ rc →
     P rc le n (Some (Return (match le with Some f => ErrorDict f | None => Value JNull end)), [])) →
  (∀ rc le n v evs, rc < max_retries →
     attempt json_loads env msg n = (Returned v, evs) →
     P rc le n (Some (Return (Value v)), evs)) →
  (∀ rc le n e evs, rc < max_retries →
     attempt json_loads env msg n = (Escaped e, evs) →
     P rc le n (Some (Raise e), evs)) →
  (∀ rc le n f evs r rest, rc < max_retries →
     attempt json_loads env msg n = (Failed f, evs) →
     P (rc + 1) (Some f) (S n) (r, rest) →
     P rc le n (r, evs ++ EvSleep 1 :: rest)) →
  P 0 None 0%nat (process_message json_loads max_retries env msg).
Proof.
  intros. unfold process_message. apply process_loop_ind; try done. lia.
Qed.

(** The loop ends: [process_message] always has an outcome. *)
Lemma process_message_total (env : environment) (msg : string) :
  ∃ outcome, (process_message json_loads max_retries env msg).1 = Some outcome.
Proof.
  apply (process_message_ind env msg (λ _ _ _ p, ∃ outcome, p.1 = Some outcome)); eauto.
Qed.

Lemma closing_observers (n : nat) (tail : list event) :
  Forall (closing_event n) tail →
  created tail = [] ∧ started tail = [] ∧ invocations tail = []
  ∧ Forall (λ ev, runtime_of ev = Some n) tail.
Proof.
  induction 1 as [|ev tail Hev _ (Hc & Hs & Hi & Hr)]; [done|].
  destruct ev; simpl in Hev; try done; subst;
    (split; [exact Hc|]); (split; [exact Hs|]); (split; [exact Hi|]);
    by constructor.
Qed.

(** An [invoke] found behind closing events lies behind all of them. *)
Lemma closing_prefix (n : nat) (tail suffix pre post : list event) (task : string) (r : nat) :
  Forall (closing_event n) tail →
  tail ++ suffix = pre ++ EvInvoke task r :: post →
  ∃ pre2, pre = tail ++ pre2 ∧ suffix = pre2 ++ EvInvoke task r :: post.
Proof.
  intros Htail. revert pre.
  induction Htail as [|ev tail Hev _ IH]; intros pre Heq.
  - by exists pre.
  - destruct pre as [|ev' pre]; simplify_eq/=; [done|].
    destruct (IH pre) as (pre2 & -> & ->); [done|]. by exists pre2.
Qed.

Lemma trace_ok_nil (msg : string) (n : nat) : trace_ok msg n [].
Proof.
  split; try done.
  - constructor.
  - by exists 0%nat.
  - intros r Hr. by apply elem_of_nil in Hr.
  - intros [|? pre] post task r Heq; discriminate.
Qed.

Lemma trace_ok_sleep (msg : string) (n : nat) (s : Z) (rest : list event) :
  trace_ok msg n rest → trace_ok msg n (EvSleep s :: rest).
Proof.
  intros [Hrange Hcreated Hstarted Hinv Hstops Hfresh]. split; try done.
  - constructor; [done|exact Hrange].
  - intros [|ev pre] post task r Heq; simplify_eq/=.
    destruct (Hfresh pre post task r eq_refl) as (pre' & -> & Hpre').
    exists (EvSleep s :: pre'). split; [done|]. by constructor.
Qed.

(** One pass in front of a trace that starts at the next runtime. *)
Lemma trace_ok_block (msg : string) (n : nat) (tail suffix : list event) :
  Forall (closing_event n) tail →
  stops_of n tail = 1%nat →
  trace_ok msg (S n) suffix →
  trace_ok msg n ([EvRuntimeCreated n; EvRuntimeStarted n; EvInvoke msg n] ++ tail ++ suffix).
Proof.
  intros Htail Hstop [Hrange [k Hcreated] Hstarted Hinv Hstops Hfresh].
  destruct (closing_observers n tail Htail) as (Hc & Hs & Hi & Hr).
  assert (created ([EvRuntimeCreated n; EvRuntimeStarted n; EvInvoke msg n] ++ tail ++ suffix)
          = n :: created suffix) as Hcr.
  { unfold created in *. cbn. by rewrite omap_app, Hc. }
  assert (∀ r, (S n ≤ r)%nat → Forall (λ ev, runtime_of ev ≠ Some r) tail) as Htail_other.
  { intros r Hle. eapply Forall_impl; [exact Hr|]. intros ev -> [= <-]. lia. }
  split.
  - unfold from_runtime in *. cbn. repeat constructor; try (intros r [= <-]; lia).
    apply Forall_app. split.
    + eapply Forall_impl; [exact Hr|]. intros ev -> r [= <-]. lia.
    + eapply Forall_impl; [exact Hrange|]. intros ev Hev r Hrun.
      specialize (Hev r Hrun). lia.
  - exists (S k). by rewrite Hcr, Hcreated.
  - rewrite Hcr. unfold started in *. cbn. by rewrite omap_app, Hs, Hstarted.
  - rewrite Hcr. unfold invocations in *. cbn. by rewrite omap_app, Hi, Hinv.
  - rewrite Hcr. intros r [->|Hin]%elem_of_cons.
    + change ([EvRuntimeCreated n; EvRuntimeStarted n; EvInvoke msg n] ++ tail ++ suffix)
        with ([EvRuntimeCreated n; EvRuntimeStarted n; EvInvoke msg n] ++ (tail ++ suffix)).
      rewrite !stops_of_app, Hstop, (stops_of_other n suffix); [reflexivity|].
      eapply Forall_impl; [exact Hrange|]. intros ev Hev Hrun.
      specialize (Hev n Hrun). lia.
    + assert (S n ≤ r)%nat as Hle.
      { rewrite Hcreated in Hin. apply elem_of_seq in Hin. lia. }
      rewrite !stops_of_app, (stops_of_other r tail), (Hstops r Hin) by auto.
      rewrite stops_of_other; [reflexivity|].
      repeat constructor; intros [= <-]; lia.
  - intros pre post task r Heq.
    destruct pre as [|a [|b [|c pre]]]; simplify_eq/=.
    + exists []. split; [done|constructor].
    + destruct (closing_prefix n tail suffix pre post task r Htail) as (pre2 & -> & ->);
        [done|].
      destruct (Hfresh pre2 post task r eq_refl) as (pre' & -> & Hpre').
      assert (S n ≤ r)%nat as Hle.
      { unfold from_runtime in Hrange. rewrite Forall_forall in Hrange.
        apply (Hrange (EvInvoke task r)); [|done].
        apply elem_of_app. right. by left. }
      exists (EvRuntimeCreated n :: EvRuntimeStarted n :: EvInvoke msg n :: tail ++ pre').
      split; [simpl; by rewrite (assoc_L (++))|].
      repeat constructor; try (intros [= <-]; lia).
      apply Forall_app. auto.
Qed.

Lemma attempt_trace_ok (env : environment) (msg : string) (n : nat) (suffix : list event) :
  trace_ok msg (S n) suffix →
  trace_ok msg n ((attempt json_loads env msg n).2 ++ suffix).
Proof.
  intros Hsuffix.
  destruct (attempt_events env msg n) as (tail & -> & Htail & Hstop).
  rewrite <- (assoc_L (++)). by apply trace_ok_block.
Qed.

(** The trace of [process_message] is well formed, and it holds no more
    passes than [max_retries]. *)
Lemma process_message_trace_ok (env : environment) (msg : string) :
  trace_ok msg 0 (process_message json_loads max_retries env msg).2
  ∧ (length (created (process_message json_loads max_retries env msg).2)
     ≤ Z.to_nat max_retries)%nat.
Proof.
  pose proof (process_message_ind env msg
    (λ rc _ n p, trace_ok msg n p.2
                 ∧ (length (created p.2) ≤ Z.to_nat (max_retries - rc))%nat)) as Hind.
  cbv beta in Hind. rewrite Z.sub_0_r in Hind. apply Hind; clear Hind.
  - intros. split; [apply trace_ok_nil|simpl; lia].
  - intros rc le n v evs Hlt Hatt. cbn [snd].
    pose proof (attempt_trace_ok env msg n [] (trace_ok_nil msg (S n))) as Hok.
    rewrite Hatt, app_nil_r in Hok. split; [done|].
    destruct (ok_created _ _ _ Hok) as [k Hk].
    destruct (attempt_events env msg n) as (tail & Hevs & Htail & _).
    rewrite Hatt in Hevs. cbn [snd] in Hevs. subst evs.
    destruct (closing_observers n tail Htail) as (Hc & _).
    unfold created in *. cbn. rewrite Hc. simpl. lia.
  - intros rc le n e evs Hlt Hatt. cbn [snd].
    pose proof (attempt_trace_ok env msg n [] (trace_ok_nil msg (S n))) as Hok.
    rewrite Hatt, app_nil_r in Hok. split; [done|].
    destruct (attempt_events env msg n) as (tail & Hevs & Htail & _).
    rewrite Hatt in Hevs. cbn [snd] in Hevs. subst evs.
    destruct (closing_observers n tail Htail) as (Hc & _).
    unfold created in *. cbn. rewrite Hc. simpl. lia.
  - intros rc le n f evs r rest Hlt Hatt [Hrest Hlen]. cbn [snd] in *.
    pose proof (attempt_trace_ok env msg n (EvSleep 1 :: rest)
                  (trace_ok_sleep msg (S n) 1 rest Hrest)) as Hok.
    rewrite Hatt in Hok. split; [done|].
    destruct (attempt_events env msg n) as (tail & Hevs & Htail & _).
    rewrite Hatt in Hevs. cbn [snd] in Hevs. subst evs.
    destruct (closing_observers n tail Htail) as (Hc & _).
    unfold created in *. cbn. rewrite omap_app, Hc. cbn. lia.
Qed.

(** The retry bound: no more than [max_retries] passes. *)
Lemma attempts_bounded (env : environment) (msg : string) :
  (length (invocations (process_message json_loads max_retries env msg).2)
   ≤ Z.to_nat max_retries)%nat.
Proof.
  destruct (process_message_trace_ok env msg) as [Hok Hlen].
  by rewrite (ok_invocations _ _ _ Hok), length_fmap.
Qed.

End CoordinatorFacts.

Section CoordinatorResults.

Variable json_loads : string → option json.
Variable max_retries : Z.

Lemma calls_app (l k : list event) : calls (l ++ k) = calls l ++ calls k.
Proof. unfold calls. apply filter_app. Qed.

(** What [stop_when_idle] does has no part in the outcome, nor in the
    calls made. *)
Lemma process_loop_with_shutdown (env : environment) (stops : nat → option exn)
    (msg : string) (fuel : nat) :
  ∀ rc le n,
    (process_loop json_loads max_retries (with_shutdown env stops) fuel msg rc le n).1
    = (process_loop json_loads max_retries env fuel msg rc le n).1
    ∧ calls (process_loop json_loads max_retries (with_shutdown env stops) fuel msg rc le n).2
      = calls (process_loop json_loads max_retries env fuel msg rc le n).2.
Proof.
  induction fuel as [|fuel IH]; intros rc le n.
  - cbn [process_loop]. destruct (rc <? max_retries); [done|]. by destruct le.
  - destruct (Z.lt_ge_cases rc max_retries) as [Hlt|Hge].
    + rewrite !process_loop_pass by done.
      destruct (attempt_with_shutdown json_loads env stops msg n) as [Hend Hcalls].
      destruct (attempt json_loads (with_shutdown env stops) msg n) as [end1 evs1].
      destruct (attempt json_loads env msg n) as [end2 evs2].
      cbn [fst snd] in Hend, Hcalls. subst end2.
      destruct end1 as [v|e|f]; [done|done|].
      specialize (IH (rc + 1) (Some f) (S n)).
      destruct (process_loop _ _ (with_shutdown env stops) fuel msg _ _ _) as [r1 rest1].
      destruct (process_loop _ _ env fuel msg _ _ _) as [r2 rest2].
      cbn [fst snd] in *. destruct IH as [-> Hrest]. split; [done|].
      rewrite !calls_app, Hcalls. f_equal.
      unfold calls in *. rewrite !filter_cons. cbn. by rewrite Hrest.
    + by rewrite !process_loop_done.
Qed.

(** X19. With no retries allowed ([max_retries] zero or negative) the loop
    body never runs, no call is made, nothing was recorded, and the function
    falls off its end: the caller gets [None]. *)
Lemma no_attempts_returns_none (env : environment) (msg : string) :
  max_retries ≤ 0 →
  process_message json_loads max_retries env msg = (Some (Return (Value JNull)), []).
Proof. intros H. unfold process_message. by rewrite process_loop_done. Qed.

(** When [invoke] itself never raises, [process_message] returns. *)
Lemma returns_when_invoke_returns (env : environment) (msg : string) :
  (∀ r, invoke_raises (env r) = None) →
  ∃ v, (process_message json_loads max_retries env msg).1 = Some (Return v).
Proof.
  intros Hinvoke.
  apply (process_message_ind json_loads max_retries env msg
           (λ _ _ _ p, ∃ v, p.1 = Some (Return v))); eauto.
  intros rc le n e evs _ Hatt. exfalso.
  unfold attempt in Hatt. rewrite Hinvoke in Hatt.
  destruct (await_result _ _ _); discriminate.
Qed.

(** A pass in which [invoke] returned and the wait or the decoding failed
    records the failure. *)
Lemma attempt_failed (env : environment) (msg : string) (n : nat) (e : exn) :
  invoke_raises (env n) = None →
  await_result json_loads env n = Raise e →
  (attempt json_loads env msg n).1
  = Failed {| failure_type := "exception"; failure_cause := e |}.
Proof. intros Hi Ha. unfold attempt. by rewrite Hi, Ha. Qed.

Lemma process_loop_exhausted (env : environment) (msg : string) (cause : nat → exn)
    (fuel : nat) :
  ∀ rc le n,
    fuel = Z.to_nat (max_retries - rc) →
    (∀ r, (n ≤ r < n + fuel)%nat →
          invoke_raises (env r) = None ∧ await_result json_loads env r = Raise (cause r)) →
    (process_loop json_loads max_retries env fuel msg rc le n).1
    = Some (Return (match fuel with
                    | O => match le with Some f => ErrorDict f | None => Value JNull end
                    | S k => ErrorDict {| failure_type := "exception";
                                          failure_cause := cause (n + k)%nat |}
                    end)).
Proof.
  induction fuel as [|fuel IH]; intros rc le n Hfuel Hfail.
  - rewrite process_loop_done by lia. reflexivity.
  - rewrite process_loop_pass by lia.
    destruct (Hfail n ltac:(lia)) as [Hi Ha].
    pose proof (attempt_failed env msg n _ Hi Ha) as Hatt.
    destruct (attempt json_loads env msg n) as [end1 evs]. cbn [fst] in Hatt. subst end1.
    specialize (IH (rc + 1) (Some {| failure_type := "exception"; failure_cause := cause n |})
                  (S n) ltac:(lia)).
    destruct (process_loop _ _ env fuel msg _ _ _) as [r rest]. cbn [fst] in *.
    rewrite IH by (intros r' Hr'; apply Hfail; lia).
    destruct fuel as [|k]; [by rewrite Nat.add_0_r|].
    by replace (S n + k)%nat with (n + S k)%nat by lia.
Qed.

(** Exhaustion: when every one of the [max_retries] passes fails after
    [invoke] returned, the caller gets the error dictionary built from the
    failure of the last pass. *)
Lemma exhaustion_reports_last_failure (env : environment) (msg : string)
    (cause : nat → exn) :
  0 < max_retries →
  (∀ r, (r < Z.to_nat max_retries)%nat →
        invoke_raises (env r) = None ∧ await_result json_loads env r = Raise (cause r)) →
  (process_message json_loads max_retries env msg).1
  = Some (Return (ErrorDict {| failure_type := "exception";
                               failure_cause := cause (Z.to_nat max_retries - 1)%nat |})).
Proof.
  intros Hpos Hfail. unfold process_message.
  rewrite (process_loop_exhausted env msg cause (Z.to_nat max_retries) 0 None 0%nat).
  - destruct (Z.to_nat max_retries) as [|k] eqn:Hk; [lia|].
    by replace (S k - 1)%nat with (0 + k)%nat by lia.
  - f_equal. lia.
  - intros r Hr. apply Hfail. lia.
Qed.

End CoordinatorResults.

(** C1. [process_message] does let an exception reach its caller: when
    [orchestration.invoke] raises, the outer [try] has a [finally] clause
    and no [except] clause, so the runtime is stopped and the exception
    leaves the function; nothing is recorded and no retry is made. *)
Theorem invoke_failure_escapes (json_loads : string → option json) (max_retries : Z)
    (env : environment) (msg : string) (e : exn) :
  0 < max_retries →
  invoke_raises (env 0%nat) = Some e →
  (process_message json_loads max_retries env msg).1 = Some (Raise e)
  ∧ invocations (process_message json_loads max_retries env msg).2 = [(msg, 0%nat)].
Proof.
  intros Hpos Hinvoke. unfold process_message.
  destruct (Z.to_nat max_retries) as [|fuel] eqn:Hfuel; [lia|].
  rewrite process_loop_pass by done.
  unfold attempt. rewrite Hinvoke. cbn [fst snd]. split; [reflexivity|].
  unfold shutdown. by destruct (stop_raises (env 0%nat)).
Qed.

Lemma invoke_failure_escapes_witness :
  (process_message Decoder.json_decode 3 invoke_fails "Where is my order 1234?").1
  = Some (Raise (ExternalError "agent registration failed"))
  ∧ invocations (process_message Decoder.json_decode 3 invoke_fails "Where is my order 1234?").2
    = [("Where is my order 1234?", 0%nat)].
Proof.
  apply (invoke_failure_escapes Decoder.json_decode 3 invoke_fails
           "Where is my order 1234?" (ExternalError "agent registration failed")).
  - reflexivity.
  - reflexivity.
Defined.

(** The scenarios of the coordinator: an answered question, success on the
    third pass with a failed shutdown in between, three timeouts. *)
Example scenario_faq :
  (process_message Decoder.json_decode 3 faq_answer "What are your store hours?").1
  = Some (Return (Value (JString "9am-5pm Mon-Fri"))).
Proof. vm_compute. reflexivity. Qed.

Example scenario_third_time_lucky :
  process_message Decoder.json_decode 3 third_time_lucky "Cancel order 1234"
  = (Some (Return (Value (JString "Order 1234 cancelled."))),
     [EvRuntimeCreated 0; EvRuntimeStarted 0; EvInvoke "Cancel order 1234" 0;
      EvGet 0 35; EvStopWhenIdle 0; EvSleep 1;
      EvRuntimeCreated 1; EvRuntimeStarted 1; EvInvoke "Cancel order 1234" 1;
      EvGet 1 35; EvStopWhenIdle 1;
      EvShutdownErrorLogged 1 (ExternalError "runtime is busy"); EvSleep 1;
      EvRuntimeCreated 2; EvRuntimeStarted 2; EvInvoke "Cancel order 1234" 2;
      EvGet 2 35; EvStopWhenIdle 2]).
Proof. vm_compute. reflexivity. Qed.

Example scenario_exhausted :
  (process_message Decoder.json_decode 3 always_times_out "Cancel order 1234").1
  = Some (Return (ErrorDict {| failure_type := "exception"; failure_cause := TimeoutError |})).
Proof. vm_compute. reflexivity. Qed.

(** C8. However a pass ends (a value returned, a timeout or another
    failure recorded, an exception of [invoke] on its way out), it awaits
    [runtime.stop_when_idle] exactly once; over a whole call every runtime
    that was started is stopped exactly once; and an exception raised by
    [stop_when_idle] is logged and dropped: replacing the behaviour of the
    shutdowns by any other changes neither the outcome of
    [process_message] nor the calls it makes, retries included. *)
Theorem teardown_once_and_swallowed (json_loads : string → option json)
    (max_retries : Z) (env : environment) (msg : string) (stops : nat → option exn) :
  (∀ n, stops_of n (attempt json_loads env msg n).2 = 1%nat)
  ∧ (∀ r, r ∈ started (process_message json_loads max_retries env msg).2 →
          stops_of r (process_message json_loads max_retries env msg).2 = 1%nat)
  ∧ (process_message json_loads max_retries (with_shutdown env stops) msg).1
    = (process_message json_loads max_retries env msg).1
  ∧ calls (process_message json_loads max_retries (with_shutdown env stops) msg).2
    = calls (process_message json_loads max_retries env msg).2.
Proof.
  split; [|split].
  - intros n. destruct (attempt_events json_loads env msg n) as (tail & -> & _ & Hstop).
    rewrite stops_of_app, Hstop. cbn. reflexivity.
  - intros r Hr.
    destruct (process_message_trace_ok json_loads max_retries env msg) as [Hok _].
    apply (ok_stops _ _ _ Hok). by rewrite <- (ok_started _ _ _ Hok).
  - apply process_loop_with_shutdown.
Qed.

Lemma teardown_once_and_swallowed_witness :
  stops_of 1 (process_message Decoder.json_decode 3 third_time_lucky "Cancel order 1234").2
  = 1%nat.
Proof.
  apply (teardown_once_and_swallowed Decoder.json_decode 3 third_time_lucky
           "Cancel order 1234" (λ _, None)).
  vm_compute. right. left.
Defined.

(** C9. Every pass of [process_message] hands [invoke] the message the
    caller gave and a runtime built in that pass: the invocations pair the
    message with the runtimes in the order they were built, no runtime is
    built twice, and wherever [invoke] is called on a runtime, the two
    events before it build and start that runtime and no earlier event is
    about it. Nothing of an earlier pass is an argument of a later one. *)
Theorem every_attempt_restarts (json_loads : string → option json)
    (max_retries : Z) (env : environment) (msg : string) :
  let trace := (process_message json_loads max_retries env msg).2 in
  invocations trace = (λ r, (msg, r)) <$> created trace
  ∧ NoDup (created trace)
  ∧ (∀ pre post task r, trace = pre ++ EvInvoke task r :: post →
       task = msg
       ∧ ∃ pre', pre = pre' ++ [EvRuntimeCreated r; EvRuntimeStarted r]
                 ∧ Forall (λ ev, runtime_of ev ≠ Some r) pre').
Proof.
  intros trace.
  destruct (process_message_trace_ok json_loads max_retries env msg) as [Hok _].
  fold trace in Hok. split; [|split].
  - apply (ok_invocations _ _ _ Hok).
  - destruct (ok_created _ _ _ Hok) as [k ->]. apply NoDup_seq.
  - intros pre post task r Heq. split; [|by apply (ok_fresh _ _ _ Hok pre post task r)].
    assert ((task, r) ∈ invocations trace) as Hin.
    { rewrite Heq. unfold invocations. rewrite omap_app. apply elem_of_app. right.
      cbn. by left. }
    rewrite (ok_invocations _ _ _ Hok) in Hin.
    apply list_elem_of_fmap in Hin as (r' & [= -> _] & _). reflexivity.
Qed.

Lemma every_attempt_restarts_witness :
  "Cancel order 1234" = "Cancel order 1234"
  ∧ ∃ pre', [EvRuntimeCreated 0; EvRuntimeStarted 0; EvInvoke "Cancel order 1234" 0;
             EvGet 0 35; EvStopWhenIdle 0; EvSleep 1;
             EvRuntimeCreated 1; EvRuntimeStarted 1]
            = pre' ++ [EvRuntimeCreated 1; EvRuntimeStarted 1]
            ∧ Forall (λ ev, runtime_of ev ≠ Some 1%nat) pre'.
Proof.
  apply (proj2 (proj2 (every_attempt_restarts Decoder.json_decode 3 third_time_lucky
                         "Cancel order 1234"))
           [EvRuntimeCreated 0; EvRuntimeStarted 0; EvInvoke "Cancel order 1234" 0;
            EvGet 0 35; EvStopWhenIdle 0; EvSleep 1;
            EvRuntimeCreated 1; EvRuntimeStarted 1]
           [EvGet 1 35; EvStopWhenIdle 1;
            EvShutdownErrorLogged 1 (ExternalError "runtime is busy"); EvSleep 1;
            EvRuntimeCreated 2; EvRuntimeStarted 2; EvInvoke "Cancel order 1234" 2;
            EvGet 2 35; EvStopWhenIdle 2]
           "Cancel order 1234" 1%nat).
  vm_compute. reflexivity.
Defined.

(** * Further properties of the manager *)


(** X1. Routing is fail-closed: whatever the history, the replies and the
    decoder, an agent that [select_next_agent] selects is a key of
    [participant_descriptions]. *)
Theorem selected_agent_is_participant (json_loads : string → option json)
    (h : ChatHistory) (pd : gmap string string) (agent : string) :
  select_next_agent json_loads h pd = Return (Some agent) →
  dict_contains pd agent = true.
Proof.
  destruct h as [|m h _] using rev_ind.
  - rewrite select_next_agent_empty. discriminate.
  - rewrite select_next_agent_snoc. intros [= Hsel]. revert Hsel.
    unfold if_known.
    repeat case_match; intros; simplify_eq/=; try done.
    match goal with H : _ && _ = true |- _ => apply andb_true_iff in H as [_ H] end.
    match goal with H : name _ = Some _ |- _ => rewrite H in * end. done.
Qed.

Lemma selected_agent_is_participant_witness :
  dict_contains five_agents "OrderCancelAgent" = true.
Proof.
  apply (selected_agent_is_participant Decoder.json_decode
           [user_says "Cancel order 1234"; agent_says "TriageAgent" clu_reply;
            agent_says "HeadSupportAgent" "{'target_agent': 'OrderCancelAgent'}"]
           five_agents "OrderCancelAgent").
  vm_compute. reflexivity.
Defined.







(** X6. The decisions are local: [select_next_agent] reads no more than the
    last two messages of the history, [should_terminate] and
    [filter_results] no more than the last one. *)
Theorem decisions_are_local (json_loads : string → option json)
    (h h' : ChatHistory) (previous m : ChatMessageContent) (pd : gmap string string) :
  select_next_agent json_loads (h ++ [previous; m]) pd
    = select_next_agent json_loads (h' ++ [previous; m]) pd
  ∧ should_terminate json_loads (h ++ [m]) = should_terminate json_loads (h' ++ [m])
  ∧ filter_results (h ++ [m]) = filter_results (h' ++ [m]).
Proof.
  split; [|split].
  - change (h ++ [previous; m]) with (h ++ [previous] ++ [m]).
    change (h' ++ [previous; m]) with (h' ++ [previous] ++ [m]).
    by rewrite !(assoc_L (++)), !select_next_agent_snoc, !last_snoc.
  - by rewrite !should_terminate_snoc.
  - unfold filter_results. by rewrite !last_snoc.
Qed.


(** * Properties of the client script *)

Section ClientFacts.

Variable json_loads : string → option json.

Lemma should_request_user_input_snoc (h : ChatHistory) (m : ChatMessageContent) :
  GroupChatClient.should_request_user_input json_loads (h ++ [m])
  = match json_loads (content m) with
    | None => Return false
    | Some v =>
        if is_dict v then Return (carries_flag v "need_more_info")
        else Raise AttributeError
    end.
Proof.
  unfold GroupChatClient.should_request_user_input. rewrite last_snoc. unfold py_json_loads.
  destruct (json_loads (content m)) as [v|]; [|reflexivity].
  destruct v; try reflexivity. simpl.
  destruct (dict_lookup "need_more_info" members) as [[| | | |s| |]|]; simpl; try reflexivity.
  destruct (String.eqb s "True"); reflexivity.
Qed.

End ClientFacts.

(** X8. The client's [should_request_user_input] asks for user input
    exactly when the last message decodes to an object whose
    [need_more_info] is the string "True"; it answers false on the empty
    history and on content that does not decode, and raises an
    [AttributeError] on content that decodes to something other than an
    object. *)
Theorem client_requests_input_iff (json_loads : string → option json)
    (h : ChatHistory) (m : ChatMessageContent) :
  (GroupChatClient.should_request_user_input json_loads (h ++ [m]) = Return true
   ↔ ∃ v, json_loads (content m) = Some v ∧ carries_flag v "need_more_info" = true)
  ∧ (json_loads (content m) = None →
     GroupChatClient.should_request_user_input json_loads (h ++ [m]) = Return false)
  ∧ (∀ v, json_loads (content m) = Some v → is_dict v = false →
     GroupChatClient.should_request_user_input json_loads (h ++ [m]) = Raise AttributeError)
  ∧ GroupChatClient.should_request_user_input json_loads [] = Return false.
Proof.
  rewrite should_request_user_input_snoc. repeat split.
  - destruct (json_loads (content m)) as [v|]; [|discriminate].
    destruct (is_dict v); [|discriminate]. intros [= Hflag]. by exists v.
  - intros (v & -> & Hflag).
    assert (is_dict v = true) as -> by (destruct v; simpl in Hflag; done).
    by rewrite Hflag.
  - by intros ->.
  - by intros v -> ->.
Qed.

(** X9. In the client, whenever user input is requested the chat is also
    set to terminate: on every history on which [should_request_user_input]
    returns true, [should_terminate] returns true. *)
Theorem request_implies_terminate (json_loads : string → option json)
    (h : ChatHistory) :
  GroupChatClient.should_request_user_input json_loads h = Return true →
  should_terminate json_loads h = Return true.
Proof.
  destruct h as [|m h _] using rev_ind; [discriminate|].
  rewrite should_request_user_input_snoc, should_terminate_snoc.
  destruct (json_loads (content m)) as [v|]; [|discriminate].
  destruct (is_dict v); [|discriminate].
  intros [= ->]. by rewrite orb_true_r.
Qed.

Lemma request_implies_terminate_witness :
  should_terminate Decoder.json_decode
    [agent_says "OrderStatusAgent"
       "{'response': 'Please provide more information.', 'terminated': 'False', 'need_more_info': 'True'}"]
  = Return true.
Proof.
  apply (request_implies_terminate Decoder.json_decode
           [agent_says "OrderStatusAgent"
              "{'response': 'Please provide more information.', 'terminated': 'False', 'need_more_info': 'True'}"]).
  vm_compute. reflexivity.
Defined.



Lemma created_app (l k : list event) : created (l ++ k) = created l ++ created k.
Proof. apply omap_app. Qed.

Lemma invocations_app (l k : list event) :
  invocations (l ++ k) = invocations l ++ invocations k.
Proof. apply omap_app. Qed.

Lemma sleeps_app (l k : list event) : sleeps (l ++ k) = sleeps l ++ sleeps k.
Proof. apply omap_app. Qed.

Lemma waits_app (l k : list event) : waits (l ++ k) = waits l ++ waits k.
Proof. apply omap_app. Qed.

Lemma shutdown_observers (env : environment) (n : nat) :
  created (shutdown env n) = [] ∧ invocations (shutdown env n) = []
  ∧ sleeps (shutdown env n) = [] ∧ waits (shutdown env n) = [].
Proof. unfold shutdown. by destruct (stop_raises (env n)). Qed.

(** X11. The loop of the client's [main] makes no more passes than its
    range holds, two for [range(1, 3)]; every pass hands [invoke] the same
    task text on a runtime of its own, waits with a timeout of 60 and
    sleeps 2 seconds after a failed wait. *)
Theorem client_loop_bounded (env : environment) (range : list Z) (n : nat) :
  (length (created (GroupChatClient.attempts env range n).2) ≤ length range)%nat
  ∧ invocations (GroupChatClient.attempts env range n).2
    = (λ r, (GroupChatClient.task_string, r))
        <$> created (GroupChatClient.attempts env range n).2
  ∧ Forall (λ t, t = 60) (waits (GroupChatClient.attempts env range n).2)
  ∧ Forall (λ t, t = 2) (sleeps (GroupChatClient.attempts env range n).2)
  ∧ (length (created (GroupChatClient.main_loop env).2) ≤ 2)%nat.
Proof.
  assert (∀ range n,
    (length (created (GroupChatClient.attempts env range n).2) ≤ length range)%nat
    ∧ invocations (GroupChatClient.attempts env range n).2
      = (λ r, (GroupChatClient.task_string, r))
          <$> created (GroupChatClient.attempts env range n).2
    ∧ Forall (λ t, t = 60) (waits (GroupChatClient.attempts env range n).2)
    ∧ Forall (λ t, t = 2) (sleeps (GroupChatClient.attempts env range n).2)) as Hgen.
  { clear range n. induction range as [|a range IH]; intros n.
    - cbn. repeat split; constructor.
    - cbn [GroupChatClient.attempts].
      destruct (shutdown_observers env n) as (Hc & Hi & Hs & Hw).
      destruct (invoke_raises (env n)).
      + cbn [snd]. rewrite created_app, invocations_app, waits_app, sleeps_app, Hc, Hi, Hs, Hw.
        cbn. split; [lia|]. repeat split; constructor.
      + destruct (get_result (env n)).
        * cbn [snd].
          change (?a ++ EvGet n 60 :: ?b) with (a ++ [EvGet n 60] ++ b).
          rewrite !created_app, !invocations_app, !waits_app, !sleeps_app, Hc, Hi, Hs, Hw.
          cbn. split; [lia|]. repeat split; repeat constructor.
        * specialize (IH (S n)).
          destruct (GroupChatClient.attempts env range (S n)) as [r evs].
          cbn [snd] in *. destruct IH as (Hlen & Hinv & Hwaits & Hsleeps).
          change (?a ++ EvGet n 60 :: shutdown env n ++ EvSleep 2 :: evs)
            with (a ++ [EvGet n 60] ++ shutdown env n ++ [EvSleep 2] ++ evs).
          rewrite !created_app, !invocations_app, !waits_app, !sleeps_app, Hc, Hi, Hs, Hw.
          cbn. rewrite Hinv. split; [lia|]. repeat split; try (constructor; done). }
  destruct (Hgen range n) as (H1 & H2 & H3 & H4). repeat split; try done.
  apply (Hgen (seqZ 1 2) 0%nat).
Qed.

(** * Further properties of the coordinator *)

Section CoordinatorPasses.

Variable json_loads : string → option json.
Variable max_retries : Z.
Variable env : environment.
Variable msg : string.

Lemma attempt_observers (n : nat) :
  created (attempt json_loads env msg n).2 = [n]
  ∧ invocations (attempt json_loads env msg n).2 = [(msg, n)]
  ∧ sleeps (attempt json_loads env msg n).2 = []
  ∧ Forall (λ t, t = 35) (waits (attempt json_loads env msg n).2).
Proof.
  unfold attempt. destruct (shutdown_observers env n) as (Hc & Hi & Hs & Hw).
  destruct (invoke_raises (env n)); [|destruct (await_result _ _ _)]; cbn [snd];
    try change (?a ++ EvGet n 35 :: shutdown env n)
          with (a ++ [EvGet n 35] ++ shutdown env n);
    rewrite !created_app, !invocations_app, !waits_app, !sleeps_app, Hc, Hi, Hs, Hw;
    cbn; repeat split; repeat constructor.
Qed.

Lemma failed_passes_observers (n k : nat) :
  created (failed_passes json_loads env msg n k) = seq n k
  ∧ sleeps (failed_passes json_loads env msg n k) = replicate k 1.
Proof.
  revert n. induction k as [|k IH]; intros n; [done|].
  cbn [failed_passes]. destruct (attempt_observers n) as (Hc & _ & Hs & _).
  destruct (IH (S n)) as [IHc IHs].
  change (?a ++ EvSleep 1 :: ?b) with (a ++ [EvSleep 1] ++ b).
  rewrite !created_app, !sleeps_app, Hc, Hs, IHc, IHs. done.
Qed.

(** After [k] passes that failed behind [invoke], the loop goes on from
    pass [k] with the last of the failures recorded. *)
Lemma process_loop_failed_prefix (cause : nat → exn) (k : nat) :
  ∀ fuel rc le n rc' n' le',
    (∀ r, (n ≤ r < n + k)%nat →
          invoke_raises (env r) = None ∧ await_result json_loads env r = Raise (cause r)) →
    rc + Z.of_nat k ≤ max_retries →
    rc' = rc + Z.of_nat k → n' = (n + k)%nat → le' = last_failure le cause n k →
    process_loop json_loads max_retries env (k + fuel) msg rc le n
    = ((process_loop json_loads max_retries env fuel msg rc' le' n').1,
       failed_passes json_loads env msg n k
       ++ (process_loop json_loads max_retries env fuel msg rc' le' n').2).
Proof.
  induction k as [|k IH]; intros fuel rc le n rc' n' le' Hfail Hle -> -> ->.
  - cbn [failed_passes last_failure Nat.add app].
    rewrite Z.add_0_r, Nat.add_0_r. by destruct (process_loop _ _ _ _ _ _ _ _).
  - cbn [Nat.add]. rewrite process_loop_pass by lia.
    destruct (Hfail n ltac:(lia)) as [Hi Ha].
    pose proof (attempt_failed json_loads env msg n _ Hi Ha) as Hatt.
    cbn [failed_passes].
    destruct (attempt json_loads env msg n) as [end1 evs]. cbn [fst snd] in *. subst end1.
    rewrite (IH fuel (rc + 1) (Some {| failure_type := "exception"; failure_cause := cause n |})
               (S n) (rc + Z.of_nat (S k)) (n + S k)%nat
               (last_failure le cause n (S k)));
      [| intros r Hr; apply Hfail; lia | lia | lia | lia |].
    + cbn [fst snd]. by rewrite <- (assoc_L (++)).
    + destruct k as [|j]; cbn [last_failure]; [by rewrite Nat.add_0_r|].
      by replace (S n + j)%nat with (n + S j)%nat by lia.
Qed.

End CoordinatorPasses.

Lemma attempt_returned (json_loads : string → option json) (env : environment)
    (msg : string) (n : nat) (v : json) :
  invoke_raises (env n) = None →
  await_result json_loads env n = Return v →
  (attempt json_loads env msg n).1 = Returned v.
Proof. intros Hi Ha. unfold attempt. by rewrite Hi, Ha. Qed.

Lemma attempt_escaped (json_loads : string → option json) (env : environment)
    (msg : string) (n : nat) (e : exn) :
  invoke_raises (env n) = Some e →
  (attempt json_loads env msg n).1 = Escaped e.
Proof. intros Hi. unfold attempt. by rewrite Hi. Qed.

Lemma attempt_waits_length (json_loads : string → option json) (env : environment)
    (msg : string) (n : nat) :
  (length (waits (attempt json_loads env msg n).2) ≤ 1)%nat.
Proof.
  unfold attempt. destruct (shutdown_observers env n) as (_ & _ & _ & Hw).
  destruct (invoke_raises (env n)); [|destruct (await_result _ _ _)]; cbn [snd];
    try change (?a ++ EvGet n 35 :: shutdown env n)
          with (a ++ [EvGet n 35] ++ shutdown env n);
    rewrite !waits_app, Hw; cbn; lia.
Qed.

(** X12. The waiting of a call is bounded: [process_message] builds no more
    than [max_retries] runtimes, waits for a result no more than
    [max_retries] times, each time with a timeout of 35, and sleeps no more
    than [max_retries] times, each time 1 second. *)
Theorem waiting_is_bounded (json_loads : string → option json) (max_retries : Z)
    (env : environment) (msg : string) :
  (length (created (process_message json_loads max_retries env msg).2)
   ≤ Z.to_nat max_retries)%nat
  ∧ (length (waits (process_message json_loads max_retries env msg).2)
     ≤ Z.to_nat max_retries)%nat
  ∧ Forall (λ t, t = 35) (waits (process_message json_loads max_retries env msg).2)
  ∧ (length (sleeps (process_message json_loads max_retries env msg).2)
     ≤ Z.to_nat max_retries)%nat
  ∧ Forall (λ s, s = 1) (sleeps (process_message json_loads max_retries env msg).2).
Proof.
  pose proof (process_message_ind json_loads max_retries env msg
    (λ rc _ _ p,
       (length (created p.2) ≤ Z.to_nat (max_retries - rc))%nat
       ∧ (length (waits p.2) ≤ Z.to_nat (max_retries - rc))%nat
       ∧ Forall (λ t, t = 35) (waits p.2)
       ∧ (length (sleeps p.2) ≤ Z.to_nat (max_retries - rc))%nat
       ∧ Forall (λ s, s = 1) (sleeps p.2))) as Hind.
  cbv beta in Hind. rewrite Z.sub_0_r in Hind. apply Hind; clear Hind.
  - intros. cbn. repeat split; try constructor; lia.
  - intros rc le n v evs Hlt Hatt. cbn [snd].
    destruct (attempt_observers json_loads env msg n) as (Hc & _ & Hs & Hw).
    pose proof (attempt_waits_length json_loads env msg n) as Hwl.
    rewrite Hatt in Hc, Hs, Hw, Hwl. cbn [snd] in *. rewrite Hc, Hs.
    cbn. repeat split; try done; try constructor; lia.
  - intros rc le n e evs Hlt Hatt. cbn [snd].
    destruct (attempt_observers json_loads env msg n) as (Hc & _ & Hs & Hw).
    pose proof (attempt_waits_length json_loads env msg n) as Hwl.
    rewrite Hatt in Hc, Hs, Hw, Hwl. cbn [snd] in *. rewrite Hc, Hs.
    cbn. repeat split; try done; try constructor; lia.
  - intros rc le n f evs r rest Hlt Hatt (IHc & IHwl & IHw & IHsl & IHs). cbn [snd] in *.
    destruct (attempt_observers json_loads env msg n) as (Hc & _ & Hs & Hw).
    pose proof (attempt_waits_length json_loads env msg n) as Hwl.
    rewrite Hatt in Hc, Hs, Hw, Hwl. cbn [snd] in *.
    change (evs ++ EvSleep 1 :: rest) with (evs ++ [EvSleep 1] ++ rest).
    rewrite !created_app, !waits_app, !sleeps_app, Hc, Hs, !length_app.
    cbn. repeat split; try lia.
    + apply Forall_app. done.
    + by constructor.
Qed.

(** X13. The first pass that succeeds decides the call: when the first [k]
    passes fail behind [invoke] and pass [k], still within [max_retries],
    delivers a reply that [final_response] accepts, [process_message]
    returns that reply's value; it has built [k + 1] runtimes and slept [k]
    times, and the earlier failures do not show in the result. *)
Theorem first_success_returns (json_loads : string → option json) (max_retries : Z)
    (env : environment) (msg : string) (k : nat) (v : json) (cause : nat → exn) :
  (k < Z.to_nat max_retries)%nat →
  (∀ r, (r < k)%nat →
        invoke_raises (env r) = None ∧ await_result json_loads env r = Raise (cause r)) →
  invoke_raises (env k) = None →
  await_result json_loads env k = Return v →
  (process_message json_loads max_retries env msg).1 = Some (Return (Value v))
  ∧ created (process_message json_loads max_retries env msg).2 = seq 0 (S k)
  ∧ sleeps (process_message json_loads max_retries env msg).2 = replicate k 1.
Proof.
  intros Hk Hfail Hi Ha. unfold process_message.
  destruct (Z.to_nat max_retries - k)%nat as [|fuel] eqn:Hfuel; [lia|].
  replace (Z.to_nat max_retries) with (k + S fuel)%nat by lia.
  rewrite (process_loop_failed_prefix json_loads max_retries env msg cause k
             (S fuel) 0 None 0%nat (Z.of_nat k) k (last_failure None cause 0 k));
    [| intros r Hr; apply Hfail; lia | lia | lia | lia | done].
  rewrite process_loop_pass by lia.
  pose proof (attempt_returned json_loads env msg k v Hi Ha) as Hend.
  destruct (attempt_observers json_loads env msg k) as (Hc & _ & Hs & _).
  destruct (failed_passes_observers json_loads env msg 0 k) as [Hfc Hfs].
  destruct (attempt json_loads env msg k) as [end1 evs]. cbn [fst snd] in *. subst end1.
  cbn [fst snd].
  rewrite created_app, sleeps_app, Hc, Hs, Hfc, Hfs, app_nil_r.
  repeat split. by rewrite seq_S.
Qed.

Lemma first_success_returns_witness :
  (process_message Decoder.json_decode 3 third_time_lucky "Cancel order 1234").1
  = Some (Return (Value (JString "Order 1234 cancelled.")))
  ∧ created (process_message Decoder.json_decode 3 third_time_lucky "Cancel order 1234").2
    = seq 0 3
  ∧ sleeps (process_message Decoder.json_decode 3 third_time_lucky "Cancel order 1234").2
    = replicate 2 1.
Proof.
  apply (first_success_returns Decoder.json_decode 3 third_time_lucky "Cancel order 1234"
           2 (JString "Order 1234 cancelled.") (λ _, TimeoutError)).
  - cbn. lia.
  - intros r Hr. destruct r as [|[|r]]; [split; reflexivity|split; reflexivity|lia].
  - reflexivity.
  - vm_compute. reflexivity.
Defined.

(** X14. An exception of [invoke] leaves [process_message] at whichever pass
    it is raised: when the first [k] passes fail behind [invoke] and
    [invoke] raises at pass [k], still within [max_retries], the exception
    is the outcome; the failures recorded before it are not reported and no
    further pass is made. *)
Theorem late_invoke_failure_escapes (json_loads : string → option json)
    (max_retries : Z) (env : environment) (msg : string) (k : nat) (e : exn)
    (cause : nat → exn) :
  (k < Z.to_nat max_retries)%nat →
  (∀ r, (r < k)%nat →
        invoke_raises (env r) = None ∧ await_result json_loads env r = Raise (cause r)) →
  invoke_raises (env k) = Some e →
  (process_message json_loads max_retries env msg).1 = Some (Raise e)
  ∧ created (process_message json_loads max_retries env msg).2 = seq 0 (S k).
Proof.
  intros Hk Hfail Hi. unfold process_message.
  destruct (Z.to_nat max_retries - k)%nat as [|fuel] eqn:Hfuel; [lia|].
  replace (Z.to_nat max_retries) with (k + S fuel)%nat by lia.
  rewrite (process_loop_failed_prefix json_loads max_retries env msg cause k
             (S fuel) 0 None 0%nat (Z.of_nat k) k (last_failure None cause 0 k));
    [| intros r Hr; apply Hfail; lia | lia | lia | lia | done].
  rewrite process_loop_pass by lia.
  pose proof (attempt_escaped json_loads env msg k e Hi) as Hend.
  destruct (attempt_observers json_loads env msg k) as (Hc & _).
  destruct (failed_passes_observers json_loads env msg 0 k) as [Hfc _].
  destruct (attempt json_loads env msg k) as [end1 evs]. cbn [fst snd] in *. subst end1.
  cbn [fst snd].
  rewrite created_app, Hc, Hfc. split; [done|]. by rewrite seq_S.
Qed.

Lemma late_invoke_failure_escapes_witness :
  (process_message Decoder.json_decode 3 second_invoke_fails "Cancel order 1234").1
  = Some (Raise (ExternalError "agent registration failed"))
  ∧ created (process_message Decoder.json_decode 3 second_invoke_fails "Cancel order 1234").2
    = seq 0 2.
Proof.
  apply (late_invoke_failure_escapes Decoder.json_decode 3 second_invoke_fails
           "Cancel order 1234" 1 (ExternalError "agent registration failed")
           (λ _, TimeoutError)).
  - cbn. lia.
  - intros r Hr. destruct r as [|r]; [split; reflexivity|lia].
  - reflexivity.
Defined.

(** X15. Exhaustion: when [max_retries] is positive and every one of the
    [max_retries] passes fails behind [invoke], [process_message] returns
    the error dictionary made from the failure of the last pass; it has
    built [max_retries] runtimes and slept [max_retries] times, once more
    after the last failure. *)
Theorem exhaustion_outcome_and_delay (json_loads : string → option json)
    (max_retries : Z) (env : environment) (msg : string) (cause : nat → exn) :
  0 < max_retries →
  (∀ r, (r < Z.to_nat max_retries)%nat →
        invoke_raises (env r) = None ∧ await_result json_loads env r = Raise (cause r)) →
  (process_message json_loads max_retries env msg).1
    = Some (Return (ErrorDict {| failure_type := "exception";
                                 failure_cause := cause (Z.to_nat max_retries - 1)%nat |}))
  ∧ created (process_message json_loads max_retries env msg).2
    = seq 0 (Z.to_nat max_retries)
  ∧ sleeps (process_message json_loads max_retries env msg).2
    = replicate (Z.to_nat max_retries) 1.
Proof.
  intros Hpos Hfail. unfold process_message.
  assert (process_loop json_loads max_retries env (Z.to_nat max_retries) msg 0 None 0%nat
          = (Some (Return (ErrorDict {| failure_type := "exception";
                                        failure_cause := cause (Z.to_nat max_retries - 1)%nat |})),
             failed_passes json_loads env msg 0 (Z.to_nat max_retries))) as ->.
  { rewrite <- (Nat.add_0_r (Z.to_nat max_retries)) at 1.
    rewrite (process_loop_failed_prefix json_loads max_retries env msg cause
               (Z.to_nat max_retries) 0 0 None 0%nat max_retries (Z.to_nat max_retries)
               (last_failure None cause 0 (Z.to_nat max_retries)));
      [| intros r Hr; apply Hfail; lia | lia | lia | lia | done].
    rewrite process_loop_done by lia. cbn [fst snd]. rewrite app_nil_r.
    destruct (Z.to_nat max_retries) as [|j] eqn:Hj; [lia|].
    cbn [last_failure]. by replace (S j - 1)%nat with (0 + j)%nat by lia. }
  cbn [fst snd].
  destruct (failed_passes_observers json_loads env msg 0 (Z.to_nat max_retries)) as [-> ->].
  done.
Qed.

Lemma exhaustion_outcome_and_delay_witness :
  (process_message Decoder.json_decode 3 always_times_out "Cancel order 1234").1
    = Some (Return (ErrorDict {| failure_type := "exception"; failure_cause := TimeoutError |}))
  ∧ created (process_message Decoder.json_decode 3 always_times_out "Cancel order 1234").2
    = seq 0 3
  ∧ sleeps (process_message Decoder.json_decode 3 always_times_out "Cancel order 1234").2
    = replicate 3 1.
Proof.
  apply (exhaustion_outcome_and_delay Decoder.json_decode 3 always_times_out
           "Cancel order 1234" (λ _, TimeoutError)).
  - reflexivity.
  - intros r _. split; reflexivity.
Defined.

Lemma no_attempts_returns_none_witness :
  process_message Decoder.json_decode 0 faq_answer "What are your store hours?"
  = (Some (Return (Value JNull)), []).
Proof.
  apply (no_attempts_returns_none Decoder.json_decode 0 faq_answer
           "What are your store hours?").
  reflexivity.
Defined.

(** X16. For a final message that decodes to an object not tagged
    [cqa_result], [process_message] picks the [response] member as it is,
    whatever the other members and flags say; without a [response] member
    the pick fails with a [KeyError]. *)
Theorem reply_response_is_returned (json_loads : string → option json)
    (value_content : string) (members : list (string * json)) :
  json_loads value_content = Some (JObject members) →
  tagged (JObject members) "cqa_result" = false →
  final_response json_loads value_content
  = match dict_lookup "response" members with
    | Some r => Return r
    | None => Raise KeyError
    end.
Proof.
  intros Hv Htag. unfold final_response, py_json_loads. rewrite Hv.
  cbn [mbind result_bind py_get]. rewrite tagged_get, Htag. reflexivity.
Qed.

Lemma reply_response_is_returned_witness :
  final_response Decoder.json_decode
    (Decoder.dq "{'target_agent': 'BillingAgent', 'intent': 'Billing', 'terminated': 'False'}")
  = Raise KeyError.
Proof.
  apply (reply_response_is_returned Decoder.json_decode
           (Decoder.dq "{'target_agent': 'BillingAgent', 'intent': 'Billing', 'terminated': 'False'}")
           [("target_agent", JString "BillingAgent"); ("intent", JString "Billing");
            ("terminated", JString "False")]).
  - vm_compute. reflexivity.
  - reflexivity.
Defined.

(** X17. For a final message tagged [cqa_result] whose [response] holds a
    list of [answers], [process_message] picks the [answer] member of the
    first one, whatever follows it; an empty list of answers makes the pick
    fail with an [IndexError], a first answer without an [answer] member
    with a [KeyError]. *)
Theorem faq_first_answer (json_loads : string → option json)
    (value_content : string) (members response : list (string * json))
    (answers : list json) :
  json_loads value_content = Some (JObject members) →
  tagged (JObject members) "cqa_result" = true →
  dict_lookup "response" members = Some (JObject response) →
  dict_lookup "answers" response = Some (JArray answers) →
  final_response json_loads value_content
  = match answers with
    | [] => Raise IndexError
    | first :: _ => py_getitem first "answer"
    end
  ∧ ∀ first_members others,
      answers = JObject first_members :: others →
      final_response json_loads value_content
      = match dict_lookup "answer" first_members with
        | Some text => Return text
        | None => Raise KeyError
        end.
Proof.
  intros Hv Htag Hresp Hans.
  assert (final_response json_loads value_content
          = match answers with
            | [] => Raise IndexError
            | first :: _ => py_getitem first "answer"
            end) as Heq.
  { unfold final_response, py_json_loads. rewrite Hv.
    cbn [mbind result_bind py_get]. rewrite tagged_get, Htag.
    cbn [py_getitem mbind result_bind]. rewrite Hresp.
    cbn [py_getitem mbind result_bind]. rewrite Hans.
    cbn [py_getitem_int mbind result_bind]. by destruct answers. }
  split; [exact Heq|].
  intros first_members others ->. rewrite Heq. reflexivity.
Qed.

Lemma faq_first_answer_witness :
  final_response Decoder.json_decode
    (Decoder.dq "{'type': 'cqa_result', 'response': {'answers': [{'answer': '9am-5pm Mon-Fri'}, {'answer': 'Closed on Sundays'}]}, 'terminated': 'True'}")
  = Return (JString "9am-5pm Mon-Fri").
Proof.
  refine (proj2 (faq_first_answer Decoder.json_decode
           (Decoder.dq "{'type': 'cqa_result', 'response': {'answers': [{'answer': '9am-5pm Mon-Fri'}, {'answer': 'Closed on Sundays'}]}, 'terminated': 'True'}")
           [("type", JString "cqa_result");
            ("response", JObject [("answers",
               JArray [JObject [("answer", JString "9am-5pm Mon-Fri")];
                       JObject [("answer", JString "Closed on Sundays")]])]);
            ("terminated", JString "True")]
           [("answers", JArray [JObject [("answer", JString "9am-5pm Mon-Fri")];
                                JObject [("answer", JString "Closed on Sundays")]])]
           [JObject [("answer", JString "9am-5pm Mon-Fri")];
            JObject [("answer", JString "Closed on Sundays")]]
           _ eq_refl eq_refl eq_refl)
          [("answer", JString "9am-5pm Mon-Fri")]
          [JObject [("answer", JString "Closed on Sundays")]] eq_refl).
  vm_compute. reflexivity.
Defined.

(** X18. A final message that is not a JSON object fails the pass although
    the session delivered it: content that does not decode is recorded as a
    [JSONDecodeError], content that decodes to something other than an
    object as an [AttributeError], and the pass counts against the retries.
    The placeholder that [filter_results] gives for an empty history is
    such a message. *)
Theorem non_object_value_fails_the_pass (json_loads : string → option json)
    (env : environment) (msg : string) (n : nat) (value_content : string) :
  invoke_raises (env n) = None →
  get_result (env n) = GetValue value_content →
  (json_loads value_content = None →
   (attempt json_loads env msg n).1
   = Failed {| failure_type := "exception"; failure_cause := JSONDecodeError |})
  ∧ (∀ v, json_loads value_content = Some v → is_dict v = false →
     (attempt json_loads env msg n).1
     = Failed {| failure_type := "exception"; failure_cause := AttributeError |}).
Proof.
  intros Hi Hg. split.
  - intros Hv. apply attempt_failed; [done|].
    unfold await_result, final_response, py_json_loads. by rewrite Hg, Hv.
  - intros v Hv Hd. apply attempt_failed; [done|].
    unfold await_result, final_response, py_json_loads. rewrite Hg, Hv.
    by destruct v.
Qed.

Lemma non_object_value_fails_the_pass_witness :
  (attempt Decoder.json_decode empty_history_result "Where is my order?" 0).1
  = Failed {| failure_type := "exception"; failure_cause := JSONDecodeError |}.
Proof.
  apply (proj1 (non_object_value_fails_the_pass Decoder.json_decode empty_history_result
                  "Where is my order?" 0 "No messages in chat history." eq_refl eq_refl)).
  vm_compute. reflexivity.
Defined.


